(** * Reconciliation, query and ingestion core of [candidate_solution.py]

    A shallow embedding of the SQLite-backed functions of the service:
    [clean_database] (correct, deduplicate, normalise, purge),
    [get_pokemon_by_type] and [create_pokemon].

    Conventions of the embedding.
    - A table is the list of its rows, in rowid order; a row carries the
      columns [id] and [name] and the remaining columns of its table.
    - Names are ASCII text.  On ASCII text Python's [str.lower] and SQLite's
      [LOWER] are the same function, and [str.strip] removes the characters
      for which [str.isspace] holds.
    - No table carries a constraint or a trigger: no statement of these
      functions raises [sqlite3.Error] or touches another table, and
      foreign keys are not enforced (the code never switches them on).
    - [difflib.get_close_matches] is a parameter of [clean_database]; a
      model of the library function is given to run it on sample data.
    - A connection is the pair of the database file and the contents seen
      inside the open transaction: [commit] copies the second onto the
      first, [rollback] and [close] do the converse. *)

From Stdlib Require Import ZArith List String Ascii Bool Lia Arith QArith.
Import ListNotations.

Local Close Scope Q_scope.
Local Open Scope string_scope.
Local Open Scope Z_scope.

(** ** Python [str] methods (and SQLite's [LOWER]) on ASCII text *)

Module Str.

Definition code (c : ascii) : nat := nat_of_ascii c.

(** [str.isspace]: TAB, LF, VT, FF, CR, FS, GS, RS, US and the blank. *)
Definition isspace (c : ascii) : bool :=
  ((9 <=? code c) && (code c <=? 13) || (28 <=? code c) && (code c <=? 32))%nat.

Definition isupper (c : ascii) : bool := ((65 <=? code c) && (code c <=? 90))%nat.
Definition islower (c : ascii) : bool := ((97 <=? code c) && (code c <=? 122))%nat.
Definition iscased (c : ascii) : bool := isupper c || islower c.

Definition to_lower (c : ascii) : ascii :=
  if isupper c then ascii_of_nat (code c + 32) else c.
Definition to_upper (c : ascii) : ascii :=
  if islower c then ascii_of_nat (code c - 32) else c.

(** [s.lower()]; also [LOWER(s)] of SQLite. *)
Fixpoint lower (s : string) : string :=
  match s with
  | EmptyString => EmptyString
  | String c s' => String (to_lower c) (lower s')
  end.

Fixpoint lstrip (s : string) : string :=
  match s with
  | EmptyString => EmptyString
  | String c s' => if isspace c then lstrip s' else s
  end.

Fixpoint rstrip (s : string) : string :=
  match s with
  | EmptyString => EmptyString
  | String c s' =>
      match rstrip s' with
      | EmptyString => if isspace c then EmptyString else String c EmptyString
      | r => String c r
      end
  end.

(** [s.strip()] *)
Definition strip (s : string) : string := rstrip (lstrip s).

(** [s.title()]: a cased character is upper-cased when the character
    before it is not cased, and lower-cased otherwise. *)
Fixpoint title_from (previous_is_cased : bool) (s : string) : string :=
  match s with
  | EmptyString => EmptyString
  | String c s' =>
      if iscased c
      then String (if previous_is_cased then to_lower c else to_upper c)
                  (title_from true s')
      else String c (title_from false s')
  end.

Definition title (s : string) : string := title_from false s.

(** [x in l] for a list of strings. *)
Definition contains (l : list string) (x : string) : bool :=
  existsb (String.eqb x) l.

End Str.

(** ** The library function [difflib.get_close_matches]

    [clean_database] calls it with [n=1, cutoff=0.8].  The functions below
    follow CPython's [difflib] ([SequenceMatcher] with [isjunk=None] and
    [autojunk=True]).  Scores are kept as exact rationals: a score is
    [2*M/T] for integers [M <= T], and comparing it with [0.8] in binary64
    gives the exact answer for every text shorter than 2^50 characters. *)

Module difflib.

Local Open Scope nat_scope.

Definition elts (s : string) : list ascii := list_ascii_of_string s.

(** Positions of [elt] in [b], ascending: the entry [b2j[elt]] before
    popular elements are purged. *)
Fixpoint positions (elt : ascii) (b : list ascii) (j : nat) : list nat :=
  match b with
  | [] => []
  | x :: b' =>
      if Ascii.eqb x elt then j :: positions elt b' (S j) else positions elt b' (S j)
  end.

(** [__chain_b]: when [len(b) >= 200], an element occurring more than
    [len(b) // 100 + 1] times is dropped from [b2j]. *)
Definition popular (b : list ascii) (elt : ascii) : bool :=
  (200 <=? List.length b) && (List.length b / 100 + 1 <? List.length (positions elt b 0)).

Definition b2j (b : list ascii) (elt : ascii) : list nat :=
  if popular b elt then [] else positions elt b 0.

(** [j2len.get(j, 0)] *)
Fixpoint j2len_get (j2len : list (nat * nat)) (j : nat) : nat :=
  match j2len with
  | [] => 0
  | (j', k) :: rest => if j' =? j then k else j2len_get rest j
  end.

(** A block [(besti, bestj, bestsize)]. *)
Definition Match : Type := nat * nat * nat.
Definition size (m : Match) : nat := snd m.

(** Inner loop of [find_longest_match], over the positions [j] of [a[i]]
    in [b]: [continue] below [blo], [break] from [bhi] on. *)
Fixpoint scan_row (i blo bhi : nat) (j2len : list (nat * nat)) (js : list nat)
         (newj2len : list (nat * nat)) (best : Match) : list (nat * nat) * Match :=
  match js with
  | [] => (newj2len, best)
  | j :: js' =>
      if j <? blo then scan_row i blo bhi j2len js' newj2len best
      else if bhi <=? j then (newj2len, best)
      else
        let k := (match j with O => 0 | S j1 => j2len_get j2len j1 end) + 1 in
        let best' := if size best <? k then (i + 1 - k, j + 1 - k, k) else best in
        scan_row i blo bhi j2len js' ((j, k) :: newj2len) best'
  end.

(** Outer loop [for i in range(alo, ahi)], as a loop over the elements
    [a[alo:ahi]]. *)
Fixpoint scan_rows (b : list ascii) (blo bhi : nat) (arows : list ascii) (i : nat)
         (j2len : list (nat * nat)) (best : Match) : Match :=
  match arows with
  | [] => best
  | ai :: rest =>
      let '(newj2len, best') := scan_row i blo bhi j2len (b2j b ai) [] best in
      scan_rows b blo bhi rest (S i) newj2len best'
  end.

Definition at_ (s : list ascii) (i : nat) : option ascii := nth_error s i.

Definition same_elt (x y : option ascii) : bool :=
  match x, y with
  | Some c, Some d => Ascii.eqb c d
  | _, _ => false
  end.

(** The two loops that extend the block by matching elements that were
    purged as popular (no element is junk: [isjunk] is [None]). *)
Fixpoint extend_left (a b : list ascii) (alo blo : nat) (fuel : nat) (m : Match) : Match :=
  match fuel with
  | O => m
  | S fuel' =>
      let '(besti, bestj, bestsize) := m in
      if (alo <? besti) && (blo <? bestj)
         && same_elt (at_ a (besti - 1)) (at_ b (bestj - 1))
      then extend_left a b alo blo fuel' (besti - 1, bestj - 1, bestsize + 1)
      else m
  end.

Fixpoint extend_right (a b : list ascii) (ahi bhi : nat) (fuel : nat) (m : Match) : Match :=
  match fuel with
  | O => m
  | S fuel' =>
      let '(besti, bestj, bestsize) := m in
      if (besti + bestsize <? ahi) && (bestj + bestsize <? bhi)
         && same_elt (at_ a (besti + bestsize)) (at_ b (bestj + bestsize))
      then extend_right a b ahi bhi fuel' (besti, bestj, bestsize + 1)
      else m
  end.

Definition find_longest_match (a b : list ascii) (alo ahi blo bhi : nat) : Match :=
  let best := scan_rows b blo bhi (firstn (ahi - alo) (skipn alo a)) alo [] (alo, blo, 0) in
  let best := extend_left a b alo blo (List.length a) best in
  extend_right a b ahi bhi (List.length a) best.

(** [get_matching_blocks]: the work list is a stack ([queue.pop()] takes
    the entry appended last).  An entry that yields a block of [k >= 1]
    elements is replaced by at most two entries over what is left of it,
    so the loop takes fewer than [2 * (len(a) + len(b)) + 1] entries, the
    fuel given by [get_matching_blocks]. *)
Fixpoint matching_blocks (a b : list ascii) (fuel : nat)
         (queue : list (nat * nat * nat * nat)) (blocks : list Match) : list Match :=
  match fuel with
  | O => blocks
  | S fuel' =>
      match queue with
      | [] => blocks
      | (alo, ahi, blo, bhi) :: queue1 =>
          let '(i, j, k) := find_longest_match a b alo ahi blo bhi in
          if k =? 0 then matching_blocks a b fuel' queue1 blocks
          else
            let queue2 :=
              if (alo <? i) && (blo <? j) then (alo, i, blo, j) :: queue1 else queue1 in
            let queue3 :=
              if (i + k <? ahi) && (j + k <? bhi) then (i + k, ahi, j + k, bhi) :: queue2
              else queue2 in
            matching_blocks a b fuel' queue3 (blocks ++ [(i, j, k)])
      end
  end.

Definition get_matching_blocks (a b : list ascii) : list Match :=
  matching_blocks a b (2 * (List.length a + List.length b) + 1)
                  [(0, List.length a, 0, List.length b)] [].

(** [_calculate_ratio(matches, length)] *)
Definition _calculate_ratio (matches length : nat) : Q :=
  if length =? 0 then 1%Q
  else Qmake (2 * Z.of_nat matches) (Pos.of_nat length).

Definition ratio (a b : list ascii) : Q :=
  _calculate_ratio (fold_right (fun m acc => size m + acc) 0 (get_matching_blocks a b))
                   (List.length a + List.length b).

(** [quick_ratio]: size of the multiset intersection. *)
Fixpoint take_one (elt : ascii) (avail : list ascii) : option (list ascii) :=
  match avail with
  | [] => None
  | x :: rest =>
      if Ascii.eqb x elt then Some rest
      else match take_one elt rest with
           | Some rest' => Some (x :: rest')
           | None => None
           end
  end.

Fixpoint quick_matches (a avail : list ascii) : nat :=
  match a with
  | [] => 0
  | elt :: a' =>
      match take_one elt avail with
      | Some avail' => S (quick_matches a' avail')
      | None => quick_matches a' avail
      end
  end.

Definition quick_ratio (a b : list ascii) : Q :=
  _calculate_ratio (quick_matches a b) (List.length a + List.length b).

Definition real_quick_ratio (a b : list ascii) : Q :=
  _calculate_ratio (Nat.min (List.length a) (List.length b)) (List.length a + List.length b).

(** Comparison of the tuples [(score, x)]. *)
Definition tuple_gt (p q : Q * string) : bool :=
  match Qcompare (fst p) (fst q) with
  | Gt => true
  | Lt => false
  | Eq => match String.compare (snd p) (snd q) with Gt => true | _ => false end
  end.

(** [heapq.nlargest(1, result)] is [max(result)]: the first greatest. *)
Fixpoint max_from (best : Q * string) (l : list (Q * string)) : Q * string :=
  match l with
  | [] => best
  | p :: rest => max_from (if tuple_gt p best then p else best) rest
  end.

Fixpoint insert_desc (p : Q * string) (sorted : list (Q * string)) : list (Q * string) :=
  match sorted with
  | [] => [p]
  | q :: rest => if tuple_gt p q then p :: sorted else q :: insert_desc p rest
  end.

Definition _nlargest (n : nat) (result : list (Q * string)) : list (Q * string) :=
  match n, result with
  | 1, p :: rest => [max_from p rest]
  | _, _ => firstn n (fold_left (fun sorted p => insert_desc p sorted) result [])
  end.

(** [get_close_matches(word, possibilities, n, cutoff)]; [word] is the
    second sequence of the matcher and each possibility the first. *)
Definition get_close_matches (word : string) (possibilities : list string)
           (n : nat) (cutoff : Q) : list string :=
  let result :=
    flat_map (fun x =>
                if Qle_bool cutoff (real_quick_ratio (elts x) (elts word))
                   && Qle_bool cutoff (quick_ratio (elts x) (elts word))
                   && Qle_bool cutoff (ratio (elts x) (elts word))
                then [(ratio (elts x) (elts word), x)] else [])
             possibilities in
  map snd (_nlargest n result).

End difflib.

(** ** The store: four entity tables and the link table *)

Record row (C : Type) : Type := Row { id : Z; name : string; cols : C }.
Arguments Row {C} _ _ _.
Arguments id {C} _.
Arguments name {C} _.
Arguments cols {C} _.

Definition table (C : Type) : Type := list (row C).

(** The two nullable type slots of a [pokemon] row. *)
Abbreviation type_slots := (option Z * option Z)%type.
Definition type1_id (r : row type_slots) : option Z := fst (cols r).
Definition type2_id (r : row type_slots) : option Z := snd (cols r).

Record tpa_row : Type :=
  Tpa { tpa_id : Z; trainer_id : Z; pokemon_id : Z; ability_id : Z }.

Record db : Type := Db {
  pokemon : table type_slots;
  types : table unit;
  abilities : table unit;
  trainers : table unit;
  trainer_pokemon_abilities : list tpa_row
}.

Definition on_pokemon (f : table type_slots -> table type_slots) (d : db) : db :=
  Db (f (pokemon d)) (types d) (abilities d) (trainers d) (trainer_pokemon_abilities d).
Definition on_types (f : table unit -> table unit) (d : db) : db :=
  Db (pokemon d) (f (types d)) (abilities d) (trainers d) (trainer_pokemon_abilities d).
Definition on_abilities (f : table unit -> table unit) (d : db) : db :=
  Db (pokemon d) (types d) (f (abilities d)) (trainers d) (trainer_pokemon_abilities d).
Definition on_trainers (f : table unit -> table unit) (d : db) : db :=
  Db (pokemon d) (types d) (abilities d) (f (trainers d)) (trainer_pokemon_abilities d).
Definition on_links (f : list tpa_row -> list tpa_row) (d : db) : db :=
  Db (pokemon d) (types d) (abilities d) (trainers d) (f (trainer_pokemon_abilities d)).

(** ** Connections and transactions *)

Record Connection : Type := Conn {
  database : db;   (* what the file holds: the last committed contents *)
  pending : db     (* what this connection sees, uncommitted changes included *)
}.

(** [connect_db]: [None] when the database file does not exist. *)
Definition connect_db (file : option db) : option Connection :=
  match file with
  | None => None
  | Some d => Some (Conn d d)
  end.

Definition execute (statement : db -> db) (conn : Connection) : Connection :=
  Conn (database conn) (statement (pending conn)).
Definition commit (conn : Connection) : Connection := Conn (pending conn) (pending conn).
Definition rollback (conn : Connection) : Connection := Conn (database conn) (database conn).
Definition close (conn : Connection) : Connection := Conn (database conn) (database conn).

(** ** The SQL statements of [clean_database] *)

Section Statements.
Context {C : Type}.

(** [SELECT id, name FROM t] *)
Definition select_id_name (t : table C) : list (Z * string) :=
  map (fun r => (id r, name r)) t.

(** [UPDATE t SET name = ? WHERE id = ?] *)
Definition update_name (new_name : string) (i : Z) (t : table C) : table C :=
  map (fun r => if id r =? i then Row (id r) new_name (cols r) else r) t.

(** The groups of [GROUP BY LOWER(name)]. *)
Definition group_keys (t : table C) : list string :=
  nodup string_dec (map (fun r => Str.lower (name r)) t).

(** [MIN(id)] over the rows of one group. *)
Fixpoint min_id (key : string) (t : table C) : option Z :=
  match t with
  | [] => None
  | r :: t' =>
      if String.eqb (Str.lower (name r)) key
      then Some (match min_id key t' with
                 | Some m => Z.min (id r) m
                 | None => id r
                 end)
      else min_id key t'
  end.

(** [SELECT MIN(id) FROM t GROUP BY LOWER(name)] *)
Definition select_min_ids (t : table C) : list Z :=
  flat_map (fun key => match min_id key t with Some m => [m] | None => [] end)
           (group_keys t).

(** [DELETE FROM t WHERE id NOT IN (SELECT MIN(id) FROM t GROUP BY LOWER(name))] *)
Definition delete_duplicates (t : table C) : table C :=
  filter (fun r => existsb (Z.eqb (id r)) (select_min_ids t)) t.

Definition sentinels : list string := ["---"; "???"; ""].

(** [DELETE FROM t WHERE name IN ('---', '???', '')] *)
Definition delete_sentinels (t : table C) : table C :=
  filter (fun r => negb (Str.contains sentinels (name r))) t.

(** The casing loop: every fetched [(id, name)] is written back as
    [name.strip().title()]. *)
Definition standardise_row (t : table C) (fetched : Z * string) : table C :=
  let '(rowid, rowname) := fetched in
  let clean_name := Str.title (Str.strip rowname) in
  update_name clean_name rowid t.

Definition standardise (t : table C) : table C :=
  let db_rows := select_id_name t in
  fold_left standardise_row db_rows t.

End Statements.

(** ** [clean_database] *)

Section Reconciliation.

(** [difflib.get_close_matches(word, possibilities, n, cutoff)] *)
Variable get_close_matches : string -> list string -> nat -> Q -> list string.

(** The correction loop body for one fetched [(pokeid, old_name)]. *)
Definition correct_row (official_list : list string)
           (t : table type_slots) (fetched : Z * string) : table type_slots :=
  let '(pokeid, old_name) := fetched in
  let old_name_lower := Str.lower (Str.strip old_name) in
  if Str.contains official_list old_name_lower then t
  else
    match get_close_matches old_name_lower official_list 1%nat (Qmake 8 10) with
    | corrected :: _ =>
        if negb (String.eqb corrected old_name_lower)
        then update_name (Str.title corrected) pokeid t
        else t
    | [] => t
    end.

(** The name the loop body writes for a stored name, if it writes one. *)
Definition correction (official_list : list string) (old_name : string)
  : option string :=
  let old_name_lower := Str.lower (Str.strip old_name) in
  if Str.contains official_list old_name_lower then None
  else
    match get_close_matches old_name_lower official_list 1%nat (Qmake 8 10) with
    | corrected :: _ =>
        if negb (String.eqb corrected old_name_lower)
        then Some (Str.title corrected)
        else None
    | [] => None
    end.

Definition correct_names (official_list : list string)
           (t : table type_slots) : table type_slots :=
  let db_rows := select_id_name t in
  fold_left (correct_row official_list) db_rows t.

(** [apiapiresponse] is what the request for the official names gave:
    [None] when it raised, and then the official list is empty.  [conn]
    is [None] for an invalid connection, and nothing is done. *)
Definition clean_database (apiapiresponse : option (list string))
           (conn : option Connection) : option Connection :=
  match conn with
  | None => None
  | Some conn =>
      let official_list :=
        match apiapiresponse with
        | Some results => results
        | None => []
        end in
      (* correct misspellings *)
      let conn := execute (on_pokemon (correct_names official_list)) conn in
      (* remove duplicates from all tables *)
      let conn := execute (on_pokemon delete_duplicates) conn in
      let conn := execute (on_types delete_duplicates) conn in
      let conn := execute (on_abilities delete_duplicates) conn in
      let conn := execute (on_trainers delete_duplicates) conn in
      (* standardise casing *)
      let conn := execute (on_pokemon standardise) conn in
      let conn := execute (on_types standardise) conn in
      let conn := execute (on_abilities standardise) conn in
      let conn := execute (on_trainers standardise) conn in
      (* remove redundant data *)
      let conn := execute (on_pokemon delete_sentinels) conn in
      let conn := execute (on_types delete_sentinels) conn in
      let conn := execute (on_abilities delete_sentinels) conn in
      let conn := execute (on_trainers delete_sentinels) conn in
      Some (commit conn)
  end.

(** The reconciliation pass as the main block runs it: connect, clean,
    close.  The result is the contents of the database file afterwards. *)
Definition reconcile (apiapiresponse : option (list string)) (file : option db) : option db :=
  match clean_database apiapiresponse (connect_db file) with
  | Some conn => Some (database (close conn))
  | None => file
  end.

End Reconciliation.



(** ** The service: errors, the type query *)

Record HTTPException : Type := HTTP { status_code : Z; detail : string }.

(** [SELECT DISTINCT]: the first occurrence of each value is kept. *)
Fixpoint distinct (seen : list string) (l : list string) : list string :=
  match l with
  | [] => []
  | x :: l' =>
      if Str.contains seen x then distinct seen l' else x :: distinct (x :: seen) l'
  end.

(** [LEFT JOIN types t ON slot = t.id], projected on [t.name]: the names of
    the matching rows, or a single NULL when no row matches. *)
Definition left_join_types (slot : option Z) (ts : table unit) : list (option string) :=
  match filter (fun t => match slot with Some i => i =? id t | None => false end) ts with
  | [] => [None]
  | matching => map (fun t => Some (name t)) matching
  end.

(** [LOWER(column) = LOWER(?)]; a NULL column never compares equal. *)
Definition lower_eq (column : option string) (parameter : string) : bool :=
  match column with
  | Some n => String.eqb (Str.lower n) (Str.lower parameter)
  | None => false
  end.

(** The query of [get_pokemon_by_type]. *)
Definition select_pokemon_by_type (type_name : string) (d : db) : list string :=
  distinct []
    (flat_map (fun p =>
       flat_map (fun t1_name =>
         flat_map (fun t2_name =>
           if lower_eq t1_name type_name || lower_eq t2_name type_name
           then [name p] else [])
           (left_join_types (type2_id p) (types d)))
         (left_join_types (type1_id p) (types d)))
       (pokemon d)).

Definition get_pokemon_by_type (file : option db) (type_name : string)
  : HTTPException + list string :=
  match connect_db file with
  | None => inl (HTTP 500 "DB connection failed.")
  | Some conn =>
      let db_rows := select_pokemon_by_type type_name (pending conn) in
      inr (match db_rows with [] => [] | _ => db_rows end)
  end.

(** ** The three queries through the link table *)

(** [FROM x JOIN trainer_pokemon_abilities tpa ON x.id = tpa.<kx>
     JOIN y ON y.id = tpa.<ky> WHERE LOWER(y.name) = LOWER(?)], projected
    on [x.name]. *)
Definition join_on_links {X Y : Type} (xs : table X) (kx : tpa_row -> Z)
           (ys : table Y) (ky : tpa_row -> Z)
           (links : list tpa_row) (parameter : string) : list string :=
  flat_map (fun x =>
    flat_map (fun tpa =>
      if id x =? kx tpa
      then flat_map (fun y =>
             if (id y =? ky tpa) && lower_eq (Some (name y)) parameter
             then [name x] else []) ys
      else []) links) xs.

(** The query of [get_pokemon_by_ability]. *)
Definition select_pokemon_by_ability (ability_name : string) (d : db) : list string :=
  distinct []
    (join_on_links (pokemon d) pokemon_id (abilities d) ability_id
                   (trainer_pokemon_abilities d) ability_name).

Definition get_pokemon_by_ability (file : option db) (ability_name : string)
  : HTTPException + list string :=
  match connect_db file with
  | None => inl (HTTP 500 "DB connection failed.")
  | Some conn =>
      let db_rows := select_pokemon_by_ability ability_name (pending conn) in
      match db_rows with
      | [] => inr []
      | _ => inr db_rows
      end
  end.

(** The query of [get_trainers_by_pokemon]. *)
Definition select_trainers_by_pokemon (pokemon_name : string) (d : db) : list string :=
  distinct []
    (join_on_links (trainers d) trainer_id (pokemon d) pokemon_id
                   (trainer_pokemon_abilities d) pokemon_name).

Definition get_trainers_by_pokemon (file : option db) (pokemon_name : string)
  : HTTPException + list string :=
  match connect_db file with
  | None => inl (HTTP 500 "DB connection failed.")
  | Some conn =>
      let db_rows := select_trainers_by_pokemon pokemon_name (pending conn) in
      inr (match db_rows with [] => [] | _ => db_rows end)
  end.

(** The query of [get_abilities_by_pokemon]. *)
Definition select_abilities_by_pokemon (pokemon_name : string) (d : db) : list string :=
  distinct []
    (join_on_links (abilities d) ability_id (pokemon d) pokemon_id
                   (trainer_pokemon_abilities d) pokemon_name).

Definition get_abilities_by_pokemon (file : option db) (pokemon_name : string)
  : HTTPException + list string :=
  match connect_db file with
  | None => inl (HTTP 500 "DB connection failed.")
  | Some conn =>
      let db_rows := select_abilities_by_pokemon pokemon_name (pending conn) in
      inr (match db_rows with [] => [] | _ => db_rows end)
  end.

(** ** Ingestion: [create_pokemon] *)

Module requests.
(** The part of the provider's JSON that is read: the names under
    [types[*].type.name] and [abilities[*].ability.name]. *)
Record Detail : Type := { types : list string; abilities : list string }.
Record Response : Type := { status_code : Z; json : Detail }.
End requests.

(** Statements run on a connection; a raised [HTTPException] ends the call
    and leaves the connection as it was at that point. *)
Definition Sql (A : Type) : Type := Connection -> (HTTPException + A) * Connection.

Definition ret {A : Type} (a : A) : Sql A := fun conn => (inr a, conn).

Definition bind {A B : Type} (m : Sql A) (k : A -> Sql B) : Sql B :=
  fun conn =>
    match m conn with
    | (inl e, conn') => (inl e, conn')
    | (inr a, conn') => k a conn'
    end.

Definition raise {A : Type} (e : HTTPException) : Sql A := fun conn => (inl e, conn).

Declare Scope sql_scope.
Delimit Scope sql_scope with sql.
Notation "x <- m ;; k" := (bind m (fun x => k))
  (at level 61, m at next level, right associativity) : sql_scope.
Notation "m ;; k" := (bind m (fun _ => k))
  (at level 61, right associativity) : sql_scope.

(** A [SELECT] followed by [fetchone]/[fetchall]. *)
Definition fetch {A : Type} (query : db -> A) : Sql A :=
  fun conn => (inr (query (pending conn)), conn).

(** A data-changing statement that yields a value ([lastrowid]). *)
Definition run {A : Type} (statement : db -> A * db) : Sql A :=
  fun conn =>
    let '(a, d) := statement (pending conn) in (inr a, Conn (database conn) d).

Definition do_ (action : Connection -> Connection) : Sql unit :=
  fun conn => (inr tt, action conn).

(** The rowid SQLite gives to an inserted row: one more than the largest
    in use, 1 in an empty table. *)
Definition next_rowid (ids : list Z) : Z :=
  match ids with
  | [] => 1
  | i :: rest => 1 + fold_left Z.max rest i
  end.

(** [SELECT id FROM t WHERE LOWER(name) = LOWER(?)], first row. *)
Definition select_id_by_name {C : Type} (parameter : string) (t : table C) : option Z :=
  option_map id (find (fun r => String.eqb (Str.lower (name r)) (Str.lower parameter)) t).

(** [INSERT INTO t (name) VALUES (?)] and its [lastrowid]. *)
Definition insert_name (new_name : string) (t : table unit) : Z * table unit :=
  let rowid := next_rowid (map id t) in
  (rowid, (t ++ [Row rowid new_name tt])%list).

Definition insert_type (new_name : string) (d : db) : Z * db :=
  let '(rowid, t) := insert_name new_name (types d) in (rowid, on_types (fun _ => t) d).

Definition insert_ability (new_name : string) (d : db) : Z * db :=
  let '(rowid, t) := insert_name new_name (abilities d) in
  (rowid, on_abilities (fun _ => t) d).

(** [INSERT INTO pokemon (name, type1_id, type2_id) VALUES (?, ?, ?)] *)
Definition insert_pokemon (new_name : string) (t1 t2 : option Z) (d : db) : Z * db :=
  let rowid := next_rowid (map id (pokemon d)) in
  (rowid, on_pokemon (fun t => (t ++ [Row rowid new_name (t1, t2)])%list) d).

(** [UPDATE pokemon SET type1_id = ?, type2_id = ? WHERE id = ?] *)
Definition update_pokemon_types (t1 t2 : option Z) (i : Z) (d : db) : db :=
  on_pokemon (map (fun r => if id r =? i then Row (id r) (name r) (t1, t2) else r)) d.

(** [SELECT id FROM trainers ORDER BY RANDOM() LIMIT 1]: [draw] stands for
    the random order; no row when the table is empty. *)
Definition select_random_trainer (draw : nat) (d : db) : option Z :=
  match trainers d with
  | [] => None
  | t => nth_error (map id t) (draw mod List.length t)
  end.

(** [INSERT INTO trainer_pokemon_abilities (trainer_id, pokemon_id, ability_id)] *)
Definition insert_link (trainer pokemon_ ability : Z) (d : db) : Z * db :=
  let rowid := next_rowid (map tpa_id (trainer_pokemon_abilities d)) in
  (rowid, on_links (fun l => (l ++ [Tpa rowid trainer pokemon_ ability])%list) d).

Section Ingestion.
Local Open Scope sql_scope.

(** The provider: the response to a GET of the detail of one name. *)
Variable requests_get : string -> requests.Response.
(** The random order of the [k]-th trainer selection of the call. *)
Variable random : nat -> nat.

(** The loop over the declared types. *)
Fixpoint resolve_types (entries : list string) (type_ids : list Z) : Sql (list Z) :=
  match entries with
  | [] => ret type_ids
  | entry :: rest =>
      let type_name := Str.lower (Str.strip entry) in
      trow <- fetch (fun d => select_id_by_name type_name (types d)) ;;
      type_id <- match trow with
                 | Some i => ret i
                 | None => run (insert_type (Str.title type_name))
                 end ;;
      resolve_types rest (type_ids ++ [type_id])%list
  end.

(** Look the creature up by name; update its slots or insert it. *)
Definition upsert_pokemon (pokemon_name : string) (type1 type2 : option Z) : Sql Z :=
  db_row <- fetch (fun d => select_id_by_name pokemon_name (pokemon d)) ;;
  match db_row with
  | Some i => do_ (execute (update_pokemon_types type1 type2 i)) ;; ret i
  | None => run (insert_pokemon (Str.title pokemon_name) type1 type2)
  end.

(** The loop over the declared abilities; [k] counts the iterations. *)
Fixpoint link_abilities (entries : list string) (pokemon_ : Z) (k : nat)
         (new_tpa_ids : list Z) : Sql (list Z) :=
  match entries with
  | [] => ret new_tpa_ids
  | entry :: rest =>
      let abi_name := Str.lower (Str.strip entry) in
      abilityitem <- fetch (fun d => select_id_by_name abi_name (abilities d)) ;;
      ability <- match abilityitem with
                 | Some i => ret i
                 | None => run (insert_ability (Str.title abi_name))
                 end ;;
      trow <- fetch (select_random_trainer (random k)) ;;
      match trow with
      | None =>
          do_ rollback ;; do_ close ;;
          raise (HTTP 500 "No trainers in the table")
      | Some trainer =>
          tpa <- run (insert_link trainer pokemon_ ability) ;;
          link_abilities rest pokemon_ (S k) (new_tpa_ids ++ [tpa])%list
      end
  end.

Definition create_pokemon_on (pokemon_name : string) : Sql (list Z) :=
  let apiresponse := requests_get (Str.lower pokemon_name) in
  if negb (requests.status_code apiresponse =? 200)
  then raise (HTTP 404 "Pokemon not found.")
  else
    let data := requests.json apiresponse in
    type_ids <- resolve_types (requests.types data) [] ;;
    let type1 := nth_error type_ids 0 in
    let type2 := nth_error type_ids 1 in
    pokemon_ <- upsert_pokemon pokemon_name type1 type2 ;;
    new_tpa_ids <- link_abilities (requests.abilities data) pokemon_ 0 [] ;;
    do_ commit ;; do_ close ;;
    ret new_tpa_ids.

(** [create_pokemon]: the answer to the caller ([created_tpa_ids] or the
    raised error) and the database file after the call. *)
Definition create_pokemon (file : option db) (pokemon_name : string)
  : (HTTPException + list Z) * option db :=
  match connect_db file with
  | None => (inl (HTTP 500 "DB connection failed."), file)
  | Some conn =>
      let '(answer, conn') := create_pokemon_on pokemon_name conn in
      (answer, Some (database conn'))
  end.

End Ingestion.

(** ** A reconciled table

    What the pass aims at for one table: unique ids; every name trimmed and
    title-cased and none a sentinel; no two rows with names equal case
    apart. *)
Definition reconciled {C : Type} (t : table C) : Prop :=
  NoDup (map id t)
  /\ (forall r, In r t ->
        Str.title (Str.strip (name r)) = name r /\ ~ In (name r) sentinels)
  /\ (forall r1 r2, In r1 t -> In r2 t ->
        Str.lower (name r1) = Str.lower (name r2) -> r1 = r2).

(** ** Sample data *)

(** A creature row with both type slots NULL. *)
Definition pk (i : Z) (n : string) : row type_slots := Row i n (None, None).

(** A small reconciled store: two creatures, three types, two abilities,
    two trainers and two links. *)
Definition sample_db : db :=
  Db [Row 1 "Pikachu" (Some 1, None); Row 2 "Charizard" (Some 2, Some 3)]
     [Row 1 "Electric" tt; Row 2 "Fire" tt; Row 3 "Flying" tt]
     [Row 1 "Static" tt; Row 2 "Blaze" tt]
     [Row 1 "Ash" tt; Row 2 "Misty" tt]
     [Tpa 1 1 1 1; Tpa 2 2 2 2].

(** A provider that answers every name with the same status and detail. *)
Definition provider_of (status : Z) (tys abs : list string) : string -> requests.Response :=
  fun _ => requests.Build_Response status (requests.Build_Detail tys abs).

(** * Properties *)

(** ** Sample runs *)

Example ratio_pikuchu :
  difflib.ratio (difflib.elts "pikachu") (difflib.elts "pikuchu") = Qmake 12 14.
Proof. reflexivity. Qed.

Example close_pikuchu :
  difflib.get_close_matches "pikuchu" ["bulbasaur"; "pikachu"; "raichu"] 1 (Qmake 8 10)
  = ["pikachu"].
Proof. vm_compute. reflexivity. Qed.

Example close_nothing :
  difflib.get_close_matches "gras" ["bulbasaur"; "pikachu"] 1 (Qmake 8 10) = [].
Proof. vm_compute. reflexivity. Qed.

Example reconcile_sample :
  reconcile difflib.get_close_matches (Some ["pikachu"; "raichu"])
    (Some (Db [pk 1 "Pikuchu"; pk 2 "raichu"; pk 3 "RAICHU"; pk 4 " ??? "] [] [] [] []))
  = Some (Db [pk 1 "Pikachu"; pk 2 "Raichu"] [] [] [] []).
Proof. vm_compute. reflexivity. Qed.

Example title_sample : Str.title "mr-mime  they-re 3x" = "Mr-Mime  They-Re 3X".
Proof. reflexivity. Qed.

(** ** Case and whitespace *)

Module StrFacts.
Import Str.

Ltac by_cases_on c := destruct c as [[] [] [] [] [] [] [] []]; reflexivity.

Lemma to_lower_idem c : to_lower (to_lower c) = to_lower c.
Proof. by_cases_on c. Qed.

Lemma to_lower_to_upper c : to_lower (to_upper c) = to_lower c.
Proof. by_cases_on c. Qed.

Lemma to_upper_to_lower c : to_upper (to_lower c) = to_upper c.
Proof. by_cases_on c. Qed.

Lemma iscased_to_lower c : iscased (to_lower c) = iscased c.
Proof. by_cases_on c. Qed.

Lemma isspace_to_lower c : isspace (to_lower c) = isspace c.
Proof. by_cases_on c. Qed.

Lemma to_lower_uncased c : iscased c = false -> to_lower c = c.
Proof.
  destruct c as [[] [] [] [] [] [] [] []]; vm_compute; intro H;
    first [reflexivity | discriminate H].
Qed.

Lemma lower_idem s : lower (lower s) = lower s.
Proof. induction s as [|c s IH]; simpl; [|rewrite to_lower_idem, IH]; reflexivity. Qed.

Lemma lower_title_from b s : lower (title_from b s) = lower s.
Proof.
  revert b; induction s as [|c s IH]; intro b; simpl; [reflexivity|].
  destruct (iscased c); simpl; rewrite IH; [|reflexivity].
  destruct b; [rewrite to_lower_idem | rewrite to_lower_to_upper]; reflexivity.
Qed.

Lemma lower_title s : lower (title s) = lower s.
Proof. apply lower_title_from. Qed.

Lemma title_from_lower b s : title_from b (lower s) = title_from b s.
Proof.
  revert b; induction s as [|c s IH]; intro b; simpl; [reflexivity|].
  rewrite iscased_to_lower.
  destruct (iscased c) eqn:Hc; rewrite IH.
  - destruct b; [rewrite to_lower_idem | rewrite to_upper_to_lower]; reflexivity.
  - rewrite (to_lower_uncased c Hc). reflexivity.
Qed.

Lemma title_lower s : title (lower s) = title s.
Proof. apply title_from_lower. Qed.

Lemma lower_lstrip s : lower (lstrip s) = lstrip (lower s).
Proof.
  induction s as [|c s IH]; simpl; [reflexivity|].
  rewrite isspace_to_lower. destruct (isspace c); [exact IH | reflexivity].
Qed.

Lemma lower_rstrip s : lower (rstrip s) = rstrip (lower s).
Proof.
  induction s as [|c s IH]; simpl; [reflexivity|].
  rewrite <- IH, isspace_to_lower.
  destruct (rstrip s); simpl; [destruct (isspace c)|]; reflexivity.
Qed.

Lemma lower_strip s : lower (strip s) = strip (lower s).
Proof. unfold strip. rewrite lower_rstrip, lower_lstrip. reflexivity. Qed.

(** The normalised name depends only on the lower-cased name. *)
Lemma title_strip_lower s : title (strip s) = title (strip (lower s)).
Proof. rewrite <- lower_strip, title_lower. reflexivity. Qed.

Lemma contains_In l x : contains l x = true <-> In x l.
Proof.
  unfold contains. rewrite existsb_exists. split.
  - intros [y [Hy He]]. apply String.eqb_eq in He. subst. exact Hy.
  - intro H. exists x. split; [exact H | apply String.eqb_refl].
Qed.

End StrFacts.

(** ** The reconciliation pass, table by table *)

Section PassFacts.
Variable get_close_matches : string -> list string -> nat -> Q -> list string.

(** The pass always completes, and each table of the file afterwards is
    the purge of the casing of the deduplication of what it held (after
    the correction, for [pokemon]); the link table is carried over. *)
Lemma reconcile_tables apiapiresponse d :
  reconcile get_close_matches apiapiresponse (Some d)
  = Some (Db
      (delete_sentinels (standardise (delete_duplicates
         (correct_names get_close_matches
            (match apiapiresponse with Some results => results | None => [] end)
            (pokemon d)))))
      (delete_sentinels (standardise (delete_duplicates (types d))))
      (delete_sentinels (standardise (delete_duplicates (abilities d))))
      (delete_sentinels (standardise (delete_duplicates (trainers d))))
      (trainer_pokemon_abilities d)).
Proof. destruct apiapiresponse; reflexivity. Qed.

Lemma delete_sentinels_names {C : Type} (t : table C) r :
  In r (delete_sentinels t) -> ~ In (name r) sentinels.
Proof.
  unfold delete_sentinels. rewrite filter_In. intros [_ Hkeep] Hin.
  apply StrFacts.contains_In in Hin. rewrite Hin in Hkeep. discriminate.
Qed.

(** C6. After the reconciliation pass, which always completes, no row of
    the pokemon, types, abilities or trainers table has a name in the
    sentinel set {"---", "???", ""}. *)
Theorem purge_invariant apiapiresponse d :
  exists d',
    reconcile get_close_matches apiapiresponse (Some d) = Some d'
    /\ (forall r, In r (pokemon d') -> ~ In (name r) ["---"; "???"; ""])
    /\ (forall r, In r (types d') -> ~ In (name r) ["---"; "???"; ""])
    /\ (forall r, In r (abilities d') -> ~ In (name r) ["---"; "???"; ""])
    /\ (forall r, In r (trainers d') -> ~ In (name r) ["---"; "???"; ""]).
Proof.
  eexists. split; [apply reconcile_tables|].
  cbn [pokemon types abilities trainers].
  repeat split; intros r Hr; exact (delete_sentinels_names _ r Hr).
Qed.

(** C9. The reconciliation pass leaves the link table
    trainer_pokemon_abilities exactly as it was: the table of the file
    after the pass equals the table before it. *)
Theorem links_untouched apiapiresponse d :
  exists d',
    reconcile get_close_matches apiapiresponse (Some d) = Some d'
    /\ trainer_pokemon_abilities d' = trainer_pokemon_abilities d.
Proof.
  eexists. split; [apply reconcile_tables | reflexivity].
Qed.

End PassFacts.

(** ** The type query *)

Lemma lower_eq_parameter column a b :
  Str.lower a = Str.lower b -> lower_eq column a = lower_eq column b.
Proof. intro H. destruct column; simpl; [rewrite H|]; reflexivity. Qed.

Lemma select_pokemon_by_type_lower a b d :
  Str.lower a = Str.lower b ->
  select_pokemon_by_type a d = select_pokemon_by_type b d.
Proof.
  intro H. unfold select_pokemon_by_type. f_equal.
  apply flat_map_ext; intro p.
  apply flat_map_ext; intro t1.
  apply flat_map_ext; intro t2.
  rewrite (lower_eq_parameter t1 a b H), (lower_eq_parameter t2 a b H).
  reflexivity.
Qed.

Lemma get_pokemon_by_type_lower file a b :
  Str.lower a = Str.lower b ->
  get_pokemon_by_type file a = get_pokemon_by_type file b.
Proof.
  intro H. unfold get_pokemon_by_type.
  destruct (connect_db file); [|reflexivity].
  rewrite (select_pokemon_by_type_lower a b _ H). reflexivity.
Qed.

(** C7. Whatever the store holds, the creatures-by-type query answers
    "fire" and "FIRE" alike: the two calls return the same names (the same
    list, hence the same set), or both fail to connect. *)
Theorem by_type_fire_FIRE file :
  get_pokemon_by_type file "fire" = get_pokemon_by_type file "FIRE".
Proof. apply get_pokemon_by_type_lower. reflexivity. Qed.

Example by_type_sample :
  get_pokemon_by_type
    (Some (Db [Row 1 "Charizard" (Some 1, Some 3); Row 2 "Squirtle" (Some 2, None);
               Row 3 "Moltres" (Some 3, Some 1)]
              [Row 1 "Fire" tt; Row 2 "Water" tt; Row 3 "Flying" tt] [] [] []))
    "FIRE"
  = inr ["Charizard"; "Moltres"].
Proof. reflexivity. Qed.

(** ** Deduplication runs before trimming

    [delete_duplicates] groups on [LOWER(name)] while the names still carry
    their surrounding whitespace; [standardise] trims afterwards.  Two rows
    whose names differ only by such whitespace are therefore both kept and
    then given the same name. *)

Section WhitespaceVariants.
Variable get_close_matches : string -> list string -> nat -> Q -> list string.

(** C3 (the code at the scenario's input). With "pikachu" in the official
    list, a creature table holding exactly the rows "pikachu" and
    "Pikachu " under two different ids comes out of the pass with both
    rows, each named "Pikachu": two rows remain, not one. *)
Theorem pikachu_variants_both_kept official i j c1 c2 :
  In "pikachu" official ->
  i <> j ->
  reconcile get_close_matches (Some official)
    (Some (Db [Row i "pikachu" c1; Row j "Pikachu " c2] [] [] [] []))
  = Some (Db [Row i "Pikachu" c1; Row j "Pikachu" c2] [] [] [] []).
Proof.
  intros Hofficial Hij.
  apply StrFacts.contains_In in Hofficial.
  assert (Hji : (j =? i) = false) by (apply Z.eqb_neq; congruence).
  assert (Hij' : (i =? j) = false) by (apply Z.eqb_neq; congruence).
  rewrite reconcile_tables. cbn [pokemon types abilities trainers trainer_pokemon_abilities].
  assert (Hcorrect :
    correct_names get_close_matches official [Row i "pikachu" c1; Row j "Pikachu " c2]
    = [Row i "pikachu" c1; Row j "Pikachu " c2]).
  { unfold correct_names. cbn [select_id_name map id name fold_left].
    unfold correct_row.
    change (Str.lower (Str.strip "pikachu")) with "pikachu".
    change (Str.lower (Str.strip "Pikachu ")) with "pikachu".
    rewrite Hofficial. reflexivity. }
  rewrite Hcorrect.
  assert (Hdedup :
    delete_duplicates [Row i "pikachu" c1; Row j "Pikachu " c2]
    = [Row i "pikachu" c1; Row j "Pikachu " c2]).
  { unfold delete_duplicates.
    change (select_min_ids [Row i "pikachu" c1; Row j "Pikachu " c2]) with [i; j].
    cbn [filter existsb id]. rewrite !Z.eqb_refl, Hji. reflexivity. }
  rewrite Hdedup.
  assert (Hcase :
    standardise [Row i "pikachu" c1; Row j "Pikachu " c2]
    = [Row i "Pikachu" c1; Row j "Pikachu" c2]).
  { unfold standardise. cbn [select_id_name map id name fold_left].
    unfold standardise_row, update_name.
    change (Str.title (Str.strip "pikachu")) with "Pikachu".
    change (Str.title (Str.strip "Pikachu ")) with "Pikachu".
    cbn [map id name cols]. rewrite !Z.eqb_refl, Hji.
    cbn [map id name cols]. rewrite !Z.eqb_refl, Hij'. reflexivity. }
  rewrite Hcase. reflexivity.
Qed.

(** C2 (the code at a failing input). Whatever the official list, a types
    table holding "fire" under id 1 and " Fire" under id 2 comes out of
    the pass with two rows, of different ids, whose names are equal (so
    equal ignoring case as well). *)
Theorem duplicate_names_survive apiapiresponse :
  exists r1 r2 d',
    reconcile get_close_matches apiapiresponse
      (Some (Db [] [Row 1 "fire" tt; Row 2 " Fire" tt] [] [] [])) = Some d'
    /\ In r1 (types d') /\ In r2 (types d')
    /\ id r1 <> id r2
    /\ Str.lower (name r1) = Str.lower (name r2).
Proof.
  exists (Row 1 "Fire" tt), (Row 2 "Fire" tt).
  eexists. split; [apply reconcile_tables|].
  cbn [types].
  split; [left; reflexivity|].
  split; [right; left; reflexivity|].
  split; [discriminate | reflexivity].
Qed.

(** C1 (the code at a failing input). Whatever the official list, a
    trainers table holding "Ash" under id 1 and "ash " under id 2 keeps
    both rows in a first pass and loses the second row in a second pass:
    two passes do not give the contents one pass gives. *)
Theorem second_pass_differs apiapiresponse :
  let d0 := Db [] [] [] [Row 1 "Ash" tt; Row 2 "ash " tt] [] in
  let d1 := Db [] [] [] [Row 1 "Ash" tt; Row 2 "Ash" tt] [] in
  let d2 := Db [] [] [] [Row 1 "Ash" tt] [] in
  reconcile get_close_matches apiapiresponse (Some d0) = Some d1
  /\ reconcile get_close_matches apiapiresponse (Some d1) = Some d2
  /\ d1 <> d2.
Proof.
  cbv zeta. rewrite !reconcile_tables.
  split; [reflexivity|]. split; [reflexivity | discriminate].
Qed.

End WhitespaceVariants.

(** ** Ingestion *)

Section IngestionFacts.
Variable requests_get : string -> requests.Response.
Variable random : nat -> nat.

Lemma select_id_by_name_found {C : Type} parameter (t : table C) i :
  select_id_by_name parameter t = Some i ->
  exists r, In r t /\ id r = i /\ Str.lower (name r) = Str.lower parameter.
Proof.
  unfold select_id_by_name. intro H.
  destruct (find _ t) as [r|] eqn:Hfind; [|discriminate].
  apply find_some in Hfind. destruct Hfind as [Hin Heq].
  apply String.eqb_eq in Heq. injection H as H.
  exists r. auto.
Qed.

(** The loop over the types never raises; it only appends rows to
    [types], and the identifier it yields for an entry is that of a row
    carrying the entry's name, case apart. *)
Lemma resolve_types_runs entries : forall type_ids conn,
  exists ids conn',
    resolve_types entries type_ids conn = (inr (type_ids ++ ids)%list, conn')
    /\ List.length ids = List.length entries
    /\ database conn' = database conn
    /\ pokemon (pending conn') = pokemon (pending conn)
    /\ abilities (pending conn') = abilities (pending conn)
    /\ trainers (pending conn') = trainers (pending conn)
    /\ trainer_pokemon_abilities (pending conn')
       = trainer_pokemon_abilities (pending conn)
    /\ (forall r, In r (types (pending conn)) -> In r (types (pending conn')))
    /\ Forall2 (fun entry i =>
                  exists r, In r (types (pending conn')) /\ id r = i
                            /\ Str.lower (name r) = Str.lower (Str.strip entry))
               entries ids.
Proof.
  induction entries as [|entry rest IH]; intros type_ids conn.
  - exists [], conn. rewrite app_nil_r. repeat split; auto.
  - cbn [resolve_types]. unfold bind at 1. unfold fetch at 1.
    destruct (select_id_by_name (Str.lower (Str.strip entry)) (types (pending conn)))
      as [i|] eqn:Hsel.
    + unfold bind at 1. cbn [ret].
      destruct (IH (type_ids ++ [i])%list conn)
        as (ids & conn' & Hrun & Hlen & Hdb & Hp & Ha & Ht & Hl & Hincl & Hids).
      exists (i :: ids), conn'. rewrite Hrun, <- app_assoc.
      repeat split; auto.
      * cbn. congruence.
      * constructor; [|exact Hids].
        destruct (select_id_by_name_found _ _ _ Hsel) as (r & Hin & Hid & Hname).
        exists r. rewrite StrFacts.lower_idem in Hname. auto.
    + unfold bind at 1. unfold run at 1.
      destruct conn as [file d]. cbn [pending database].
      unfold insert_type, insert_name.
      set (rowid := next_rowid (map id (types d))).
      set (new_row := Row rowid (Str.title (Str.lower (Str.strip entry))) tt).
      destruct (IH (type_ids ++ [rowid])%list
                   (Conn file (on_types (fun _ => (types d ++ [new_row])%list) d)))
        as (ids & conn' & Hrun & Hlen & Hdb & Hp & Ha & Ht & Hl & Hincl & Hids).
      exists (rowid :: ids), conn'. rewrite Hrun, <- app_assoc.
      cbn [pending database on_types pokemon abilities trainers
           trainer_pokemon_abilities types] in *.
      repeat split; auto.
      * cbn. congruence.
      * intros r Hr. apply Hincl. apply in_or_app. left. exact Hr.
      * constructor; [|exact Hids].
        exists new_row. split; [apply Hincl, in_or_app; right; left; reflexivity|].
        split; [reflexivity|].
        unfold new_row. cbn [name].
        rewrite StrFacts.lower_title, StrFacts.lower_idem. reflexivity.
Qed.

(** The upsert never raises and leaves a creature row of the requested
    name, case apart, holding the two slots it was given. *)
Lemma upsert_pokemon_runs pokemon_name type1 type2 conn :
  exists pokemon_ conn',
    upsert_pokemon pokemon_name type1 type2 conn = (inr pokemon_, conn')
    /\ database conn' = database conn
    /\ types (pending conn') = types (pending conn)
    /\ abilities (pending conn') = abilities (pending conn)
    /\ trainers (pending conn') = trainers (pending conn)
    /\ trainer_pokemon_abilities (pending conn')
       = trainer_pokemon_abilities (pending conn)
    /\ exists p, In p (pokemon (pending conn')) /\ id p = pokemon_
                 /\ Str.lower (name p) = Str.lower pokemon_name
                 /\ cols p = (type1, type2).
Proof.
  unfold upsert_pokemon, bind, fetch.
  destruct (select_id_by_name pokemon_name (pokemon (pending conn))) as [i|] eqn:Hsel.
  - cbn [do_ ret]. eexists. eexists. split; [reflexivity|].
    cbn [execute pending database update_pokemon_types on_pokemon types abilities
         trainers trainer_pokemon_abilities pokemon].
    repeat split; auto.
    destruct (select_id_by_name_found _ _ _ Hsel) as (r & Hin & Hid & Hname).
    exists (Row (id r) (name r) (type1, type2)).
    split; [|cbn; auto].
    apply in_map_iff. exists r. split; [|exact Hin].
    rewrite Hid, Z.eqb_refl. reflexivity.
  - unfold run, insert_pokemon. eexists. eexists. split; [reflexivity|].
    cbn [pending database on_pokemon types abilities trainers
         trainer_pokemon_abilities pokemon].
    repeat split; auto.
    eexists. split; [apply in_or_app; right; left; reflexivity|].
    cbn [id name cols]. rewrite StrFacts.lower_title. auto.
Qed.

(** With no trainer in the table, the first declared ability makes the
    call roll back, close and raise. *)
Lemma link_abilities_no_trainers entry rest pokemon_ k new_tpa_ids conn :
  trainers (pending conn) = [] ->
  link_abilities random (entry :: rest) pokemon_ k new_tpa_ids conn
  = (inl (HTTP 500 "No trainers in the table"), Conn (database conn) (database conn)).
Proof.
  intro Hempty. cbn [link_abilities]. unfold bind at 1. unfold fetch at 1.
  destruct conn as [file d]. cbn [pending database] in *.
  destruct (select_id_by_name (Str.lower (Str.strip entry)) (abilities d)) as [i|].
  - unfold bind, ret, fetch, select_random_trainer. cbn [pending].
    rewrite Hempty. reflexivity.
  - unfold bind, run, fetch, select_random_trainer, insert_ability, insert_name.
    cbn [pending on_abilities trainers]. rewrite Hempty. reflexivity.
Qed.

Lemma select_random_trainer_some draw d :
  trainers d <> [] -> exists trainer, select_random_trainer draw d = Some trainer.
Proof.
  unfold select_random_trainer. intro Hne.
  destruct (trainers d) as [|t ts] eqn:Ht; [contradiction|].
  destruct (nth_error (map id (t :: ts)) (draw mod List.length (t :: ts))) as [i|] eqn:Hn.
  - exists i. reflexivity.
  - apply nth_error_None in Hn. rewrite length_map in Hn.
    pose proof (Nat.mod_upper_bound draw (List.length (t :: ts))) as Hlt.
    cbn [List.length] in *. lia.
Qed.

(** With a trainer in the table, or no ability declared, the loop over
    the abilities does not raise, and it leaves [pokemon] and [types]. *)
Lemma link_abilities_runs entries : forall pokemon_ k new_tpa_ids conn,
  entries = [] \/ trainers (pending conn) <> [] ->
  exists created conn',
    link_abilities random entries pokemon_ k new_tpa_ids conn = (inr created, conn')
    /\ pokemon (pending conn') = pokemon (pending conn)
    /\ types (pending conn') = types (pending conn).
Proof.
  induction entries as [|entry rest IH]; intros pokemon_ k new_tpa_ids conn Hok.
  - exists new_tpa_ids, conn. auto.
  - destruct Hok as [Hnil | Htrainers]; [discriminate|].
    cbn [link_abilities]. unfold bind at 1. unfold fetch at 1.
    destruct conn as [file d]. cbn [pending database] in *.
    assert (Hstep : forall ability d1,
      trainers d1 = trainers d -> pokemon d1 = pokemon d -> types d1 = types d ->
      exists created conn',
        (trow <- fetch (select_random_trainer (random k)) ;;
         match trow with
         | None => do_ rollback ;; do_ close ;; raise (HTTP 500 "No trainers in the table")
         | Some trainer =>
             tpa <- run (insert_link trainer pokemon_ ability) ;;
             link_abilities random rest pokemon_ (S k) (new_tpa_ids ++ [tpa])%list
         end)%sql (Conn file d1) = (inr created, conn')
        /\ pokemon (pending conn') = pokemon d
        /\ types (pending conn') = types d).
    { intros ability d1 Ht Hp Hty.
      unfold bind at 1. unfold fetch at 1. cbn [pending].
      destruct (select_random_trainer_some (random k) d1) as [trainer Hsome];
        [rewrite Ht; exact Htrainers|].
      rewrite Hsome. unfold bind at 1. unfold run at 1. cbn [pending database].
      unfold insert_link.
      match goal with
      | |- context [link_abilities random rest pokemon_ (S k) ?acc ?c] =>
          destruct (IH pokemon_ (S k) acc c) as (created & conn' & Hrun & Hp' & Hty')
      end.
      { right. cbn [pending on_links trainers]. rewrite Ht. exact Htrainers. }
      exists created, conn'. rewrite Hrun.
      cbn [pending on_links pokemon types] in Hp', Hty'.
      split; [reflexivity|]. split; congruence. }
    destruct (select_id_by_name (Str.lower (Str.strip entry)) (abilities d)) as [i|].
    + unfold bind at 1. cbn [ret]. apply Hstep; reflexivity.
    + unfold bind at 1. unfold run at 1. cbn [pending database].
      unfold insert_ability, insert_name. apply Hstep; reflexivity.
Qed.

End IngestionFacts.

Section IngestionClaims.
Variable requests_get : string -> requests.Response.
Variable random : nat -> nat.

(** C5. When the provider returns detail with at least one declared
    ability and the trainers table is empty, create_pokemon answers with
    the error 500 "No trainers in the table" and the database file is
    left exactly as it was: no type, ability, creature or link row
    inserted during the call persists. *)
Theorem no_trainers_rolls_back d pokemon_name :
  requests.status_code (requests_get (Str.lower pokemon_name)) = 200 ->
  requests.abilities (requests.json (requests_get (Str.lower pokemon_name))) <> [] ->
  trainers d = [] ->
  create_pokemon requests_get random (Some d) pokemon_name
  = (inl (HTTP 500 "No trainers in the table"), Some d).
Proof.
  intros Hstatus Habilities Htrainers.
  unfold create_pokemon, create_pokemon_on. cbn [connect_db].
  rewrite Hstatus. cbn [Z.eqb Pos.eqb negb].
  unfold bind at 1.
  destruct (resolve_types_runs
              (requests.types (requests.json (requests_get (Str.lower pokemon_name))))
              [] (Conn d d))
    as (ids & conn1 & Hrun1 & _ & Hdb1 & _ & _ & Ht1 & _).
  cbn [app] in Hrun1. rewrite Hrun1.
  unfold bind at 1.
  destruct (upsert_pokemon_runs pokemon_name (nth_error ids 0) (nth_error ids 1) conn1)
    as (pokemon_ & conn2 & Hrun2 & Hdb2 & _ & _ & Ht2 & _).
  rewrite Hrun2. unfold bind at 1.
  destruct (requests.abilities (requests.json (requests_get (Str.lower pokemon_name))))
    as [|entry rest]; [contradiction|].
  rewrite link_abilities_no_trainers by (rewrite Ht2, Ht1; exact Htrainers).
  cbn [database]. rewrite Hdb2, Hdb1. reflexivity.
Qed.

(** C10. When the provider returns detail that declares no ability,
    create_pokemon commits and answers with an empty list of created
    link identifiers, whatever the trainers table holds (so also when it
    is empty): the file afterwards holds what the type loop and the
    creature upsert wrote, among it a creature row of the requested
    name. *)
Theorem no_abilities_commits d pokemon_name :
  requests.status_code (requests_get (Str.lower pokemon_name)) = 200 ->
  requests.abilities (requests.json (requests_get (Str.lower pokemon_name))) = [] ->
  exists type_ids conn1 pokemon_ conn2,
    resolve_types
      (requests.types (requests.json (requests_get (Str.lower pokemon_name))))
      [] (Conn d d) = (inr type_ids, conn1)
    /\ upsert_pokemon pokemon_name (nth_error type_ids 0) (nth_error type_ids 1) conn1
       = (inr pokemon_, conn2)
    /\ create_pokemon requests_get random (Some d) pokemon_name
       = (inr [], Some (pending conn2))
    /\ (exists p, In p (pokemon (pending conn2))
                  /\ Str.lower (name p) = Str.lower pokemon_name).
Proof.
  intros Hstatus Habilities.
  destruct (resolve_types_runs
              (requests.types (requests.json (requests_get (Str.lower pokemon_name))))
              [] (Conn d d))
    as (ids & conn1 & Hrun1 & _).
  cbn [app] in Hrun1.
  destruct (upsert_pokemon_runs pokemon_name (nth_error ids 0) (nth_error ids 1) conn1)
    as (pokemon_ & conn2 & Hrun2 & _ & _ & _ & _ & _ & p & Hp & _ & Hname & _).
  exists ids, conn1, pokemon_, conn2.
  split; [exact Hrun1|]. split; [exact Hrun2|]. split; [|exists p; auto].
  unfold create_pokemon, create_pokemon_on. cbn [connect_db].
  rewrite Hstatus. cbn [Z.eqb Pos.eqb negb].
  unfold bind at 1. rewrite Hrun1.
  unfold bind at 1. rewrite Hrun2.
  rewrite Habilities. reflexivity.
Qed.

(** C8. When the provider's detail declares three or more types (and a
    trainer exists or no ability is declared, so that nothing else
    fails), create_pokemon raises no error and the creature row it
    leaves holds in (type1_id, type2_id) the identifiers of the rows of
    the first two declared types; no later type takes a slot. *)
Theorem three_types_two_slots d pokemon_name ty1 ty2 ty3 more :
  requests.status_code (requests_get (Str.lower pokemon_name)) = 200 ->
  requests.types (requests.json (requests_get (Str.lower pokemon_name)))
  = ty1 :: ty2 :: ty3 :: more ->
  requests.abilities (requests.json (requests_get (Str.lower pokemon_name))) = []
  \/ trainers d <> [] ->
  exists created d' i1 i2,
    create_pokemon requests_get random (Some d) pokemon_name = (inr created, Some d')
    /\ (exists t, In t (types d') /\ id t = i1
                  /\ Str.lower (name t) = Str.lower (Str.strip ty1))
    /\ (exists t, In t (types d') /\ id t = i2
                  /\ Str.lower (name t) = Str.lower (Str.strip ty2))
    /\ (exists p, In p (pokemon d')
                  /\ Str.lower (name p) = Str.lower pokemon_name
                  /\ type1_id p = Some i1 /\ type2_id p = Some i2).
Proof.
  intros Hstatus Htypes Hok.
  destruct (resolve_types_runs (ty1 :: ty2 :: ty3 :: more) [] (Conn d d))
    as (ids & conn1 & Hrun1 & _ & _ & _ & _ & Ht1 & _ & _ & Hids).
  cbn [app] in Hrun1.
  inversion Hids as [|? i1 ? ids1 Hty1 Hids1]; subst.
  inversion Hids1 as [|? i2 ? ids2 Hty2 _]; subst.
  destruct (upsert_pokemon_runs pokemon_name (Some i1) (Some i2) conn1)
    as (pokemon_ & conn2 & Hrun2 & _ & Hty & _ & Ht2 & _ & p & Hp & _ & Hname & Hcols).
  destruct (link_abilities_runs random
              (requests.abilities (requests.json (requests_get (Str.lower pokemon_name))))
              pokemon_ 0%nat [] conn2)
    as (created & conn3 & Hrun3 & Hp3 & Hty3).
  { destruct Hok as [Hnone | Hsome]; [left; exact Hnone | right].
    rewrite Ht2, Ht1. exact Hsome. }
  exists created, (pending conn3), i1, i2.
  split.
  - unfold create_pokemon, create_pokemon_on. cbn [connect_db].
    rewrite Hstatus, Htypes. cbn [Z.eqb Pos.eqb negb].
    unfold bind at 1. rewrite Hrun1. cbn [nth_error].
    unfold bind at 1. rewrite Hrun2.
    unfold bind at 1. rewrite Hrun3. reflexivity.
  - rewrite Hty3, Hty, Hp3.
    split; [exact Hty1|]. split; [exact Hty2|].
    exists p. unfold type1_id, type2_id. rewrite Hcols. auto.
Qed.

End IngestionClaims.

(** ** Loops that rewrite names row by row *)

Section RowLoops.
Context {C : Type}.

(** A loop whose body, for a fetched [(id, name)], either rewrites the
    name of the rows of that id or does nothing. *)
Variable f : string -> option string.
Variable step : table C -> Z * string -> table C.
Hypothesis step_spec : forall t i n,
  step t (i, n) = match f n with
                  | Some n' => update_name n' i t
                  | None => t
                  end.

Let rewrite_with (n : string) (r : row C) : row C :=
  match f n with
  | Some n' => Row (id r) n' (cols r)
  | None => r
  end.

Lemma find_absent (snap : list (Z * string)) i :
  ~ In i (map fst snap) -> find (fun p => fst p =? i) snap = None.
Proof.
  intro Hnot. destruct (find _ snap) as [p|] eqn:Hfind; [|reflexivity].
  apply find_some in Hfind. destruct Hfind as [Hin Heq].
  apply Z.eqb_eq in Heq. exfalso. apply Hnot. rewrite <- Heq.
  apply in_map. exact Hin.
Qed.

Lemma fold_over_snapshot (snap : list (Z * string)) : forall t,
  NoDup (map fst snap) ->
  fold_left step snap t
  = map (fun r => match find (fun p => fst p =? id r) snap with
                  | Some p => rewrite_with (snd p) r
                  | None => r
                  end) t.
Proof.
  induction snap as [|[i n] rest IH]; intros t Hnd.
  - cbn. symmetry. apply map_id.
  - cbn [fold_left]. inversion Hnd as [|? ? Hfresh Hnd']; subst.
    rewrite (IH _ Hnd'), step_spec. cbn [find fst snd].
    assert (Hrest : forall r : row C, id r = i ->
              find (fun p => fst p =? id r) rest = None).
    { intros r Hr. apply find_absent. rewrite Hr. exact Hfresh. }
    unfold rewrite_with.
    destruct (f n) as [n'|] eqn:Hfn.
    + unfold update_name. rewrite map_map. apply map_ext. intro r.
      rewrite (Z.eqb_sym i (id r)).
      destruct (Z.eqb_spec (id r) i) as [Heq|Hneq].
      * cbn [id snd]. rewrite (Hrest r Heq), Hfn. reflexivity.
      * reflexivity.
    + apply map_ext. intro r.
      rewrite (Z.eqb_sym i (id r)).
      destruct (Z.eqb_spec (id r) i) as [Heq|Hneq].
      * cbn [snd]. rewrite (Hrest r Heq), Hfn. reflexivity.
      * reflexivity.
Qed.

Lemma find_own_row (t : table C) r :
  NoDup (map id t) -> In r t ->
  find (fun p => fst p =? id r) (select_id_name t) = Some (id r, name r).
Proof.
  induction t as [|r0 t IH]; intros Hnd Hin; [contradiction|].
  inversion Hnd as [|? ? Hfresh Hnd']; subst.
  cbn [select_id_name map find fst].
  destruct Hin as [Heq|Hin].
  - subst. rewrite Z.eqb_refl. reflexivity.
  - destruct (Z.eqb_spec (id r0) (id r)) as [Heq|Hneq].
    + exfalso. apply Hfresh. rewrite Heq. apply in_map. exact Hin.
    + apply IH; assumption.
Qed.

(** With unique ids, the loop over the fetched rows rewrites each row
    from its own stored name. *)
Lemma loop_rowwise (t : table C) :
  NoDup (map id t) ->
  fold_left step (select_id_name t) t = map (fun r => rewrite_with (name r) r) t.
Proof.
  intro Hnd. rewrite fold_over_snapshot.
  - apply map_ext_in. intros r Hin. rewrite (find_own_row t r Hnd Hin). reflexivity.
  - unfold select_id_name. rewrite map_map. cbn [fst]. exact Hnd.
Qed.

End RowLoops.

Lemma standardise_rowwise {C : Type} (t : table C) :
  NoDup (map id t) ->
  standardise t
  = map (fun r => Row (id r) (Str.title (Str.strip (name r))) (cols r)) t.
Proof.
  intro Hnd. unfold standardise.
  rewrite (loop_rowwise (fun n => Some (Str.title (Str.strip n))) standardise_row);
    [reflexivity | reflexivity | exact Hnd].
Qed.

Lemma correct_names_rowwise gcm official (t : table type_slots) :
  NoDup (map id t) ->
  correct_names gcm official t
  = map (fun r => match correction gcm official (name r) with
                  | Some n' => Row (id r) n' (cols r)
                  | None => r
                  end) t.
Proof.
  intro Hnd. unfold correct_names.
  rewrite (loop_rowwise (correction gcm official) (correct_row gcm official));
    [reflexivity | | exact Hnd].
  intros t' i n. unfold correct_row, correction.
  destruct (Str.contains official (Str.lower (Str.strip n))); [reflexivity|].
  destruct (gcm (Str.lower (Str.strip n)) official 1%nat (Qmake 8 10)) as [|m ms];
    [reflexivity|].
  destruct (negb (String.eqb m (Str.lower (Str.strip n)))); reflexivity.
Qed.

(** ** Deduplication keeps the smallest id of every group *)

Section Dedup.
Context {C : Type}.

Lemma min_id_spec key (t : table C) m :
  min_id key t = Some m ->
  (exists r, In r t /\ id r = m /\ Str.lower (name r) = key)
  /\ (forall r, In r t -> Str.lower (name r) = key -> m <= id r).
Proof.
  revert m. induction t as [|r0 t IH]; intros m Hmin; [discriminate|].
  cbn [min_id] in Hmin.
  destruct (String.eqb (Str.lower (name r0)) key) eqn:Hkey.
  - apply String.eqb_eq in Hkey.
    destruct (min_id key t) as [m'|] eqn:Hrest; injection Hmin as Hm.
    + destruct (IH m' eq_refl) as [(r & Hin & Hid & Hname) Hle].
      split.
      * destruct (Z.min_spec (id r0) m') as [[_ Hmin]|[_ Hmin]].
        -- exists r0. split; [left; reflexivity|]. split; [lia | exact Hkey].
        -- exists r. split; [right; exact Hin|]. split; [lia | exact Hname].
      * intros r' [Heq|Hin'] Hname'.
        -- subst r'. lia.
        -- specialize (Hle r' Hin' Hname'). lia.
    + split.
      * exists r0. split; [left; reflexivity|]. split; [exact Hm | exact Hkey].
      * intros r' [Heq|Hin'] Hname'.
        -- subst r'. lia.
        -- exfalso. clear - Hrest Hin' Hname'.
           induction t as [|r1 t IHt]; [contradiction|].
           cbn [min_id] in Hrest.
           destruct (String.eqb (Str.lower (name r1)) key) eqn:Hk1; [discriminate|].
           destruct Hin' as [Heq|Hin'].
           ++ subst r1. rewrite Hname', String.eqb_refl in Hk1. discriminate.
           ++ exact (IHt Hrest Hin').
  - destruct (IH m Hmin) as [(r & Hin & Hid & Hname) Hle].
    split.
    + exists r. split; [right; exact Hin | auto].
    + intros r' [Heq|Hin'] Hname'.
      * subst r'. rewrite Hname', String.eqb_refl in Hkey. discriminate.
      * exact (Hle r' Hin' Hname').
Qed.

Lemma min_id_defined (t : table C) r :
  In r t -> exists m, min_id (Str.lower (name r)) t = Some m.
Proof.
  induction t as [|r0 t IH]; intro Hin; [contradiction|].
  cbn [min_id].
  destruct (String.eqb (Str.lower (name r0)) (Str.lower (name r))) eqn:Hkey.
  - eexists. reflexivity.
  - destruct Hin as [Heq|Hin].
    + subst r0. rewrite String.eqb_refl in Hkey. discriminate.
    + exact (IH Hin).
Qed.

Lemma group_min_selected (t : table C) r m :
  In r t -> min_id (Str.lower (name r)) t = Some m -> In m (select_min_ids t).
Proof.
  intros Hin Hmin. unfold select_min_ids. apply in_flat_map.
  exists (Str.lower (name r)). split.
  - unfold group_keys. apply nodup_In.
    apply (in_map (fun r => Str.lower (name r))). exact Hin.
  - rewrite Hmin. left. reflexivity.
Qed.

Lemma delete_duplicates_incl (t : table C) r :
  In r (delete_duplicates t) -> In r t.
Proof. unfold delete_duplicates. rewrite filter_In. tauto. Qed.

Lemma selected_kept (t : table C) r :
  In r t -> In (id r) (select_min_ids t) -> In r (delete_duplicates t).
Proof.
  intros Hin Hsel. unfold delete_duplicates. apply filter_In.
  split; [exact Hin|]. apply existsb_exists.
  exists (id r). split; [exact Hsel | apply Z.eqb_refl].
Qed.

(** Of every group a row is kept, and its id is the smallest of the
    group. *)
Lemma group_representative (t : table C) r :
  In r t ->
  exists r', In r' (delete_duplicates t)
             /\ Str.lower (name r') = Str.lower (name r) /\ id r' <= id r.
Proof.
  intro Hin. destruct (min_id_defined t r Hin) as [m Hmin].
  destruct (min_id_spec _ _ _ Hmin) as [(r' & Hin' & Hid & Hname) Hle].
  exists r'. split; [|split; [exact Hname | rewrite Hid; exact (Hle r Hin eq_refl)]].
  apply selected_kept; [exact Hin'|]. rewrite Hid.
  exact (group_min_selected t r m Hin Hmin).
Qed.

(** A row with the smallest id of its group is kept. *)
Lemma smallest_kept (t : table C) r :
  In r t ->
  (forall r', In r' t -> Str.lower (name r') = Str.lower (name r) -> id r <= id r') ->
  In r (delete_duplicates t).
Proof.
  intros Hin Hsmallest. destruct (min_id_defined t r Hin) as [m Hmin].
  destruct (min_id_spec _ _ _ Hmin) as [(r' & Hin' & Hid & Hname) Hle].
  apply selected_kept; [exact Hin|].
  assert (Hm : m = id r).
  { specialize (Hle r Hin eq_refl). specialize (Hsmallest r' Hin' Hname). lia. }
  rewrite <- Hm. exact (group_min_selected t r m Hin Hmin).
Qed.

Lemma NoDup_ids_filter (keep : row C -> bool) (t : table C) :
  NoDup (map id t) -> NoDup (map id (filter keep t)).
Proof.
  induction t as [|r t IH]; intro Hnd; [exact Hnd|].
  inversion Hnd as [|? ? Hfresh Hnd']; subst. cbn [filter].
  destruct (keep r); [|exact (IH Hnd')].
  cbn [map]. constructor; [|exact (IH Hnd')].
  intro Hin. apply Hfresh. apply in_map_iff in Hin.
  destruct Hin as (r' & Hid & Hin). apply filter_In in Hin.
  rewrite <- Hid. apply in_map. tauto.
Qed.

Lemma unique_row (t : table C) r1 r2 :
  NoDup (map id t) -> In r1 t -> In r2 t -> id r1 = id r2 -> r1 = r2.
Proof.
  induction t as [|r t IH]; intros Hnd H1 H2 Hid; [contradiction|].
  inversion Hnd as [|? ? Hfresh Hnd']; subst.
  destruct H1 as [E1|H1], H2 as [E2|H2].
  - congruence.
  - subst r1. exfalso. apply Hfresh. rewrite Hid. apply in_map. exact H2.
  - subst r2. exfalso. apply Hfresh. rewrite <- Hid. apply in_map. exact H1.
  - exact (IH Hnd' H1 H2 Hid).
Qed.

End Dedup.

(** ** Correction of "Pikuchu" *)

Section Correction.
Variable get_close_matches : string -> list string -> nat -> Q -> list string.
Variable official : list string.

Hypothesis pikuchu_unknown : ~ In "pikuchu" official.
Hypothesis pikachu_best :
  get_close_matches "pikuchu" official 1%nat (Qmake 8 10) = ["pikachu"].

Lemma correction_pikuchu : correction get_close_matches official "Pikuchu" = Some "Pikachu".
Proof.
  unfold correction.
  change (Str.lower (Str.strip "Pikuchu")) with "pikuchu".
  destruct (Str.contains official "pikuchu") eqn:Hin.
  - apply StrFacts.contains_In in Hin. contradiction.
  - rewrite pikachu_best. reflexivity.
Qed.

(** A kept row whose name is "pikachu", case apart, leaves the pass
    named "Pikachu". *)
Lemma pikachu_row_normalised (t : table type_slots) r :
  NoDup (map id t) -> In r t -> Str.lower (name r) = "pikachu" ->
  In (Row (id r) "Pikachu" (cols r)) (delete_sentinels (standardise t)).
Proof.
  intros Hnd Hin Hname. rewrite (standardise_rowwise t Hnd).
  unfold delete_sentinels. apply filter_In. split.
  - apply in_map_iff. exists r. split; [|exact Hin].
    rewrite StrFacts.title_strip_lower, Hname. reflexivity.
  - reflexivity.
Qed.

(** C4 (amended). Let "pikachu" be the one close match of "pikuchu" in
    the official list (at cutoff 0.8), "pikuchu" itself not being in the
    list, and let a creature row of id i (ids being unique) be named
    "Pikuchu". After the
    pass, any creature row of id i is that row renamed "Pikachu"; a
    creature row named "Pikachu" with an id at most i remains; and the
    row of id i itself remains when, after the correction step, no
    creature row of a smaller id is named "pikachu", case apart. *)
Theorem pikuchu_corrected d i c :
  NoDup (map id (pokemon d)) ->
  In (Row i "Pikuchu" c) (pokemon d) ->
  exists d',
    reconcile get_close_matches (Some official) (Some d) = Some d'
    /\ (forall r, In r (pokemon d') -> id r = i -> r = Row i "Pikachu" c)
    /\ (exists r, In r (pokemon d') /\ name r = "Pikachu" /\ id r <= i)
    /\ ((forall r, In r (correct_names get_close_matches official (pokemon d)) ->
                   id r < i -> Str.lower (name r) <> "pikachu") ->
        In (Row i "Pikachu" c) (pokemon d')).
Proof.
  intros Hnd Hrow.
  eexists. split; [apply reconcile_tables|]. cbn [pokemon].
  set (t1 := correct_names get_close_matches official (pokemon d)).
  assert (Ht1 : t1 = map (fun r => match correction get_close_matches official (name r) with
                                   | Some n' => Row (id r) n' (cols r)
                                   | None => r
                                   end) (pokemon d))
    by (apply correct_names_rowwise; exact Hnd).
  assert (Hids1 : map id t1 = map id (pokemon d)).
  { rewrite Ht1, map_map. apply map_ext. intro r.
    destruct (correction get_close_matches official (name r)); reflexivity. }
  assert (Hnd1 : NoDup (map id t1)) by (rewrite Hids1; exact Hnd).
  assert (Hrow1 : In (Row i "Pikachu" c) t1).
  { rewrite Ht1. apply in_map_iff. exists (Row i "Pikuchu" c).
    split; [|exact Hrow]. cbn [name id cols]. rewrite correction_pikuchu. reflexivity. }
  assert (Hnd2 : NoDup (map id (delete_duplicates t1)))
    by (apply NoDup_ids_filter; exact Hnd1).
  split; [|split].
  - intros r Hr Hid.
    unfold delete_sentinels in Hr. apply filter_In in Hr. destruct Hr as [Hr _].
    rewrite (standardise_rowwise _ Hnd2) in Hr. apply in_map_iff in Hr.
    destruct Hr as (r2 & Hr & Hin2). subst r. cbn [id] in Hid.
    apply delete_duplicates_incl in Hin2.
    assert (Hr2 : r2 = Row i "Pikachu" c)
      by (apply (unique_row t1); auto).
    subst r2. reflexivity.
  - destruct (group_representative t1 _ Hrow1) as (r' & Hin' & Hname & Hle).
    cbn [name id] in Hname, Hle.
    exists (Row (id r') "Pikachu" (cols r')). split; [|split; [reflexivity | exact Hle]].
    apply pikachu_row_normalised; assumption.
  - intro Hsmaller.
    apply (pikachu_row_normalised (delete_duplicates t1) (Row i "Pikachu" c));
      [exact Hnd2 | | reflexivity].
    apply smallest_kept; [exact Hrow1|].
    intros r' Hin' Hname. cbn [name id] in *.
    destruct (Z.lt_ge_cases (id r') i) as [Hlt|Hge]; [|exact Hge].
    exfalso. exact (Hsmaller r' Hin' Hlt Hname).
Qed.

End Correction.

(** C4 (as stated, at a concrete store). With the official list
    ["pikachu"], "pikachu" is the close match of "pikuchu"; the store holds
    "pikachu" under id 1 and "Pikuchu" under id 2.  After the pass the
    creature table holds the single row of id 1: the row that was named
    "Pikuchu" is not named "Pikachu", it is gone. *)
Lemma pikuchu_row_removed :
  let d := Db [pk 1 "pikachu"; pk 2 "Pikuchu"] [] [] [] [] in
  In "pikachu" ["pikachu"]
  /\ In (pk 2 "Pikuchu") (pokemon d)
  /\ difflib.get_close_matches "pikuchu" ["pikachu"] 1 (Qmake 8 10) = ["pikachu"]
  /\ reconcile difflib.get_close_matches (Some ["pikachu"]) (Some d)
     = Some (Db [pk 1 "Pikachu"] [] [] [] [])
  /\ ~ (exists r, In r [pk 1 "Pikachu"] /\ id r = 2 /\ name r = "Pikachu").
Proof.
  cbv zeta. split; [left; reflexivity|].
  split; [right; left; reflexivity|].
  split; [vm_compute; reflexivity|].
  split; [vm_compute; reflexivity|].
  intros (r & [Hr|[]] & Hid & _). subst r. discriminate Hid.
Qed.

(** The same two rows when the request for the official names failed. *)
Example pikachu_variants_fetch_failed :
  reconcile difflib.get_close_matches None
    (Some (Db [pk 4 "pikachu"; pk 9 "Pikachu "] [] [] [] []))
  = Some (Db [pk 4 "Pikachu"; pk 9 "Pikachu"] [] [] [] []).
Proof. vm_compute. reflexivity. Qed.

(** ** The theorems at concrete inputs *)

Lemma pikuchu_corrected_witness :
  ~ In "pikuchu" ["bulbasaur"; "pikachu"; "raichu"]
  /\ difflib.get_close_matches "pikuchu" ["bulbasaur"; "pikachu"; "raichu"] 1 (Qmake 8 10)
     = ["pikachu"]
  /\ exists d',
    reconcile difflib.get_close_matches (Some ["bulbasaur"; "pikachu"; "raichu"])
      (Some (Db [pk 1 "Raichu"; pk 2 "Pikuchu"] [] [] [] [])) = Some d'
    /\ In (pk 2 "Pikachu") (pokemon d').
Proof.
  assert (Hunknown : ~ In "pikuchu" ["bulbasaur"; "pikachu"; "raichu"])
    by (simpl; intros [H|[H|[H|[]]]]; discriminate H).
  assert (Hbest : difflib.get_close_matches "pikuchu" ["bulbasaur"; "pikachu"; "raichu"]
                    1 (Qmake 8 10) = ["pikachu"])
    by (vm_compute; reflexivity).
  split; [exact Hunknown|]. split; [exact Hbest|].
  destruct (pikuchu_corrected difflib.get_close_matches ["bulbasaur"; "pikachu"; "raichu"]
              Hunknown Hbest (Db [pk 1 "Raichu"; pk 2 "Pikuchu"] [] [] [] []) 2 (None, None))
    as (d' & Hrun & _ & _ & Hkept).
  - simpl. constructor; [simpl; intros [H|[]]; discriminate H|].
    constructor; [simpl; tauto | constructor].
  - right. left. reflexivity.
  - exists d'. split; [exact Hrun|]. apply Hkept.
    vm_compute. intros r [Hr|[Hr|[]]] Hlt Hname; subst r;
      first [discriminate Hlt | discriminate Hname].
Defined.

Lemma pikachu_variants_witness :
  In "pikachu" ["pikachu"; "raichu"] /\ 4 <> 9
  /\ reconcile difflib.get_close_matches (Some ["pikachu"; "raichu"])
       (Some (Db [pk 4 "pikachu"; pk 9 "Pikachu "] [] [] [] []))
     = Some (Db [pk 4 "Pikachu"; pk 9 "Pikachu"] [] [] [] []).
Proof.
  assert (H1 : In "pikachu" ["pikachu"; "raichu"]) by (left; reflexivity).
  assert (H2 : 4 <> 9) by lia.
  split; [exact H1|]. split; [exact H2|].
  exact (pikachu_variants_both_kept difflib.get_close_matches
           ["pikachu"; "raichu"] 4 9 (None, None) (None, None) H1 H2).
Defined.

Lemma no_trainers_witness :
  create_pokemon (provider_of 200 ["fire"] ["blaze"; "solar-power"]) (fun k => k)
    (Some (Db [pk 1 "Pikachu"] [Row 1 "Electric" tt] [Row 1 "Static" tt] [] []))
    "charmander"
  = (inl (HTTP 500 "No trainers in the table"),
     Some (Db [pk 1 "Pikachu"] [Row 1 "Electric" tt] [Row 1 "Static" tt] [] [])).
Proof.
  apply no_trainers_rolls_back; [reflexivity | discriminate | reflexivity].
Defined.

Lemma no_abilities_witness :
  exists type_ids conn1 pokemon_ conn2,
    resolve_types ["fire"] [] (Conn (Db [] [] [] [] []) (Db [] [] [] [] []))
    = (inr type_ids, conn1)
    /\ upsert_pokemon "charmander" (nth_error type_ids 0) (nth_error type_ids 1) conn1
       = (inr pokemon_, conn2)
    /\ create_pokemon (provider_of 200 ["fire"] []) (fun k => k)
         (Some (Db [] [] [] [] [])) "charmander"
       = (inr [], Some (pending conn2))
    /\ (exists p, In p (pokemon (pending conn2))
                  /\ Str.lower (name p) = Str.lower "charmander").
Proof.
  apply (no_abilities_commits (provider_of 200 ["fire"] []) (fun k => k)
           (Db [] [] [] [] []) "charmander"); reflexivity.
Defined.

Lemma three_types_witness :
  exists created d' i1 i2,
    create_pokemon (provider_of 200 ["fire"; "flying"; "dragon"] ["blaze"]) (fun k => k)
      (Some (Db [] [Row 5 "Flying" tt] [] [Row 7 "Ash" tt] [])) "charizard"
    = (inr created, Some d')
    /\ (exists t, In t (types d') /\ id t = i1
                  /\ Str.lower (name t) = Str.lower (Str.strip "fire"))
    /\ (exists t, In t (types d') /\ id t = i2
                  /\ Str.lower (name t) = Str.lower (Str.strip "flying"))
    /\ (exists p, In p (pokemon d')
                  /\ Str.lower (name p) = Str.lower "charizard"
                  /\ type1_id p = Some i1 /\ type2_id p = Some i2).
Proof.
  apply (three_types_two_slots (provider_of 200 ["fire"; "flying"; "dragon"] ["blaze"])
           (fun k => k) (Db [] [Row 5 "Flying" tt] [] [Row 7 "Ash" tt] [])
           "charizard" "fire" "flying" "dragon" []).
  - reflexivity.
  - reflexivity.
  - right. discriminate.
Defined.

Example three_types_sample :
  create_pokemon (provider_of 200 ["fire"; "flying"; "dragon"] ["blaze"]) (fun k => k)
    (Some (Db [] [Row 5 "Flying" tt] [] [Row 7 "Ash" tt] [])) "charizard"
  = (inr [1],
     Some (Db [Row 1 "Charizard" (Some 6, Some 5)]
              [Row 5 "Flying" tt; Row 6 "Fire" tt; Row 7 "Dragon" tt]
              [Row 1 "Blaze" tt] [Row 7 "Ash" tt] [Tpa 1 7 1 1])).
Proof. vm_compute. reflexivity. Qed.

(** * Further properties of the code *)

(** ** The four read queries *)

Lemma distinct_In seen l x : In x (distinct seen l) <-> In x l /\ ~ In x seen.
Proof.
  revert seen. induction l as [|y l IH]; intro seen; cbn [distinct].
  - cbn. tauto.
  - destruct (Str.contains seen y) eqn:Hseen.
    + apply StrFacts.contains_In in Hseen. rewrite IH. cbn [In].
      split; [tauto|]. intros [[Heq|Hin] Hnot]; [subst; contradiction | tauto].
    + assert (Hnot : ~ In y seen).
      { intro H. apply StrFacts.contains_In in H. congruence. }
      cbn [In]. rewrite IH. cbn [In].
      destruct (string_dec y x) as [Heq|Hneq]; [subst; tauto|]. tauto.
Qed.

Lemma distinct_NoDup seen l : NoDup (distinct seen l).
Proof.
  revert seen. induction l as [|y l IH]; intro seen; cbn [distinct].
  - constructor.
  - destruct (Str.contains seen y); [apply IH|].
    constructor; [|apply IH].
    rewrite distinct_In. cbn [In]. tauto.
Qed.

Lemma rows_or_empty (db_rows : list string) :
  match db_rows with [] => [] | _ => db_rows end = db_rows.
Proof. destruct db_rows; reflexivity. Qed.

Lemma lower_eq_true column parameter :
  lower_eq column parameter = true
  <-> exists n, column = Some n /\ Str.lower n = Str.lower parameter.
Proof.
  destruct column as [n|]; cbn [lower_eq].
  - rewrite String.eqb_eq. split.
    + intro H. exists n. auto.
    + intros (n' & Hn & H). injection Hn as ->. exact H.
  - split; [discriminate | intros (n & Hn & _); discriminate].
Qed.

Lemma join_on_links_In {X Y : Type} (xs : table X) kx (ys : table Y) ky links parameter n :
  In n (join_on_links xs kx ys ky links parameter)
  <-> exists x tpa y,
        In x xs /\ In tpa links /\ In y ys
        /\ id x = kx tpa /\ id y = ky tpa
        /\ Str.lower (name y) = Str.lower parameter /\ name x = n.
Proof.
  unfold join_on_links. rewrite in_flat_map. split.
  - intros (x & Hx & Hn). apply in_flat_map in Hn. destruct Hn as (tpa & Htpa & Hn).
    destruct (Z.eqb_spec (id x) (kx tpa)) as [Hkx|]; [|contradiction].
    apply in_flat_map in Hn. destruct Hn as (y & Hy & Hn).
    destruct (Z.eqb_spec (id y) (ky tpa)) as [Hky|]; [|contradiction].
    cbn [andb] in Hn.
    destruct (lower_eq (Some (name y)) parameter) eqn:Hname; [|contradiction].
    apply lower_eq_true in Hname. destruct Hname as (n' & Hn' & Hlow).
    injection Hn' as <-. destruct Hn as [Hn|[]].
    exists x, tpa, y. auto 10.
  - intros (x & tpa & y & Hx & Htpa & Hy & Hkx & Hky & Hlow & Hn).
    exists x. split; [exact Hx|]. apply in_flat_map. exists tpa. split; [exact Htpa|].
    rewrite Hkx, Z.eqb_refl. apply in_flat_map. exists y. split; [exact Hy|].
    rewrite Hky, Z.eqb_refl. cbn [andb].
    assert (Hname : lower_eq (Some (name y)) parameter = true)
      by (apply lower_eq_true; exists (name y); auto).
    rewrite Hname. left. exact Hn.
Qed.

Lemma join_on_links_lower {X Y : Type} (xs : table X) kx (ys : table Y) ky links a b :
  Str.lower a = Str.lower b ->
  join_on_links xs kx ys ky links a = join_on_links xs kx ys ky links b.
Proof.
  intro H. unfold join_on_links.
  apply flat_map_ext; intro x. apply flat_map_ext; intro tpa.
  destruct (id x =? kx tpa); [|reflexivity].
  apply flat_map_ext; intro y.
  rewrite (lower_eq_parameter (Some (name y)) a b H). reflexivity.
Qed.

(** X1. [get_pokemon_by_ability] answers, without duplicates, exactly the
    names of the creature rows that a link row ties to an ability row whose
    name is the requested one, case apart. *)
Theorem pokemon_by_ability_answer d ability_name :
  exists names,
    get_pokemon_by_ability (Some d) ability_name = inr names
    /\ NoDup names
    /\ forall n,
         In n names
         <-> exists p tpa a,
               In p (pokemon d) /\ In tpa (trainer_pokemon_abilities d)
               /\ In a (abilities d)
               /\ id p = pokemon_id tpa /\ id a = ability_id tpa
               /\ Str.lower (name a) = Str.lower ability_name /\ name p = n.
Proof.
  exists (select_pokemon_by_ability ability_name d). split; [|split].
  - unfold get_pokemon_by_ability. cbn [connect_db pending].
    destruct (select_pokemon_by_ability ability_name d); reflexivity.
  - apply distinct_NoDup.
  - intro n. unfold select_pokemon_by_ability.
    rewrite distinct_In, join_on_links_In. cbn [In]. tauto.
Qed.

(** X2. [get_trainers_by_pokemon] answers, without duplicates, exactly the
    names of the trainer rows that a link row ties to a creature row whose
    name is the requested one, case apart. *)
Theorem trainers_by_pokemon_answer d pokemon_name :
  exists names,
    get_trainers_by_pokemon (Some d) pokemon_name = inr names
    /\ NoDup names
    /\ forall n,
         In n names
         <-> exists tr tpa p,
               In tr (trainers d) /\ In tpa (trainer_pokemon_abilities d)
               /\ In p (pokemon d)
               /\ id tr = trainer_id tpa /\ id p = pokemon_id tpa
               /\ Str.lower (name p) = Str.lower pokemon_name /\ name tr = n.
Proof.
  exists (select_trainers_by_pokemon pokemon_name d). split; [|split].
  - unfold get_trainers_by_pokemon. cbn [connect_db pending].
    rewrite rows_or_empty. reflexivity.
  - apply distinct_NoDup.
  - intro n. unfold select_trainers_by_pokemon.
    rewrite distinct_In, join_on_links_In. cbn [In]. tauto.
Qed.

(** X3. [get_abilities_by_pokemon] answers, without duplicates, exactly the
    names of the ability rows that a link row ties to a creature row whose
    name is the requested one, case apart. *)
Theorem abilities_by_pokemon_answer d pokemon_name :
  exists names,
    get_abilities_by_pokemon (Some d) pokemon_name = inr names
    /\ NoDup names
    /\ forall n,
         In n names
         <-> exists a tpa p,
               In a (abilities d) /\ In tpa (trainer_pokemon_abilities d)
               /\ In p (pokemon d)
               /\ id a = ability_id tpa /\ id p = pokemon_id tpa
               /\ Str.lower (name p) = Str.lower pokemon_name /\ name a = n.
Proof.
  exists (select_abilities_by_pokemon pokemon_name d). split; [|split].
  - unfold get_abilities_by_pokemon. cbn [connect_db pending].
    rewrite rows_or_empty. reflexivity.
  - apply distinct_NoDup.
  - intro n. unfold select_abilities_by_pokemon.
    rewrite distinct_In, join_on_links_In. cbn [In]. tauto.
Qed.

Lemma left_join_types_In slot ts x :
  In x (left_join_types slot ts)
  <-> (exists t, In t ts /\ slot = Some (id t) /\ x = Some (name t))
      \/ (x = None /\ forall t, In t ts -> slot <> Some (id t)).
Proof.
  unfold left_join_types.
  set (matches := fun t : row unit =>
                    match slot with Some i => i =? id t | None => false end).
  assert (Hmatches : forall t, matches t = true <-> slot = Some (id t)).
  { intro t. unfold matches. destruct slot as [i|].
    - rewrite Z.eqb_eq. split; [intros ->; reflexivity | intro H; injection H; auto].
    - split; discriminate. }
  destruct (filter matches ts) as [|m ms] eqn:Hfilter.
  - cbn [In]. split.
    + intros [<-|[]]. right. split; [reflexivity|].
      intros t Ht Hslot. apply Hmatches in Hslot.
      assert (Hin : In t (filter matches ts)) by (apply filter_In; auto).
      rewrite Hfilter in Hin. exact Hin.
    + intros [(t & Ht & Hslot & _)|[-> _]]; [|left; reflexivity].
      apply Hmatches in Hslot.
      assert (Hin : In t (filter matches ts)) by (apply filter_In; auto).
      rewrite Hfilter in Hin. destruct Hin.
  - rewrite <- Hfilter. rewrite in_map_iff. split.
    + intros (t & <- & Ht). apply filter_In in Ht. destruct Ht as [Ht Hm].
      left. exists t. split; [exact Ht|]. split; [apply Hmatches; exact Hm | reflexivity].
    + intros [(t & Ht & Hslot & ->)|[-> Hnone]].
      * exists t. split; [reflexivity|]. apply filter_In. split; [exact Ht|].
        apply Hmatches. exact Hslot.
      * exfalso. assert (Hin : In m (filter matches ts)) by (rewrite Hfilter; left; reflexivity).
        apply filter_In in Hin. destruct Hin as [Hin Hm].
        apply Hmatches in Hm. exact (Hnone m Hin Hm).
Qed.

Lemma left_join_types_inhabited slot ts : exists x, In x (left_join_types slot ts).
Proof.
  unfold left_join_types. destruct (filter _ ts) as [|m ms].
  - exists None. left. reflexivity.
  - exists (Some (name m)). left. reflexivity.
Qed.

Lemma select_pokemon_by_type_In type_name d n :
  In n (select_pokemon_by_type type_name d)
  <-> exists p t,
        In p (pokemon d) /\ In t (types d)
        /\ (type1_id p = Some (id t) \/ type2_id p = Some (id t))
        /\ Str.lower (name t) = Str.lower type_name /\ name p = n.
Proof.
  unfold select_pokemon_by_type. rewrite distinct_In. cbn [In].
  split.
  - intros [Hn _]. apply in_flat_map in Hn. destruct Hn as (p & Hp & Hn).
    apply in_flat_map in Hn. destruct Hn as (t1 & Ht1 & Hn).
    apply in_flat_map in Hn. destruct Hn as (t2 & Ht2 & Hn).
    destruct (lower_eq t1 type_name) eqn:H1.
    + apply lower_eq_true in H1. destruct H1 as (n1 & -> & Hlow).
      apply left_join_types_In in Ht1.
      destruct Ht1 as [(t & Ht & Hslot & Hname)|[Hnone _]]; [|discriminate].
      injection Hname as ->. destruct Hn as [Hn|[]].
      exists p, t. auto 10.
    + cbn [orb] in Hn. destruct (lower_eq t2 type_name) eqn:H2; [|contradiction].
      apply lower_eq_true in H2. destruct H2 as (n2 & -> & Hlow).
      apply left_join_types_In in Ht2.
      destruct Ht2 as [(t & Ht & Hslot & Hname)|[Hnone _]]; [|discriminate].
      injection Hname as ->. destruct Hn as [Hn|[]].
      exists p, t. auto 10.
  - intros (p & t & Hp & Ht & Hslot & Hlow & Hn). split; [|tauto].
    assert (Hmatch : lower_eq (Some (name t)) type_name = true)
      by (apply lower_eq_true; exists (name t); auto).
    apply in_flat_map. exists p. split; [exact Hp|].
    destruct Hslot as [Hslot|Hslot].
    + apply in_flat_map. exists (Some (name t)). split.
      * apply left_join_types_In. left. exists t. auto.
      * destruct (left_join_types_inhabited (type2_id p) (types d)) as [t2 Ht2].
        apply in_flat_map. exists t2. split; [exact Ht2|].
        rewrite Hmatch. left. exact Hn.
    + destruct (left_join_types_inhabited (type1_id p) (types d)) as [t1 Ht1].
      apply in_flat_map. exists t1. split; [exact Ht1|].
      apply in_flat_map. exists (Some (name t)). split.
      * apply left_join_types_In. left. exists t. auto.
      * rewrite Hmatch, orb_true_r. left. exact Hn.
Qed.

(** X4. [get_pokemon_by_type] answers, without duplicates, exactly the names
    of the creature rows of which the first or the second type slot holds
    the id of a type row whose name is the requested one, case apart. *)
Theorem pokemon_by_type_answer d type_name :
  exists names,
    get_pokemon_by_type (Some d) type_name = inr names
    /\ NoDup names
    /\ forall n,
         In n names
         <-> exists p t,
               In p (pokemon d) /\ In t (types d)
               /\ (type1_id p = Some (id t) \/ type2_id p = Some (id t))
               /\ Str.lower (name t) = Str.lower type_name /\ name p = n.
Proof.
  exists (select_pokemon_by_type type_name d). split; [|split].
  - unfold get_pokemon_by_type. cbn [connect_db pending].
    rewrite rows_or_empty. reflexivity.
  - apply distinct_NoDup.
  - intro n. apply select_pokemon_by_type_In.
Qed.

(** X5. The three queries through the link table do not depend on the case
    of their parameter: two parameters with the same lower-casing get the
    same answer from each of them. *)
Theorem link_queries_ignore_case file a b :
  Str.lower a = Str.lower b ->
  get_pokemon_by_ability file a = get_pokemon_by_ability file b
  /\ get_trainers_by_pokemon file a = get_trainers_by_pokemon file b
  /\ get_abilities_by_pokemon file a = get_abilities_by_pokemon file b.
Proof.
  intro H.
  unfold get_pokemon_by_ability, get_trainers_by_pokemon, get_abilities_by_pokemon,
    select_pokemon_by_ability, select_trainers_by_pokemon, select_abilities_by_pokemon.
  destruct (connect_db file) as [conn|]; [|auto].
  rewrite !(join_on_links_lower _ _ _ _ _ a b H). auto.
Qed.

Lemma no_names_empty (l : list string) : (forall n, ~ In n l) -> l = [].
Proof. destruct l as [|x l]; [reflexivity|]. intro H. exfalso. apply (H x). left. reflexivity. Qed.

(** X6. A name that no row carries gives an empty answer, not an error: an
    ability name absent from [abilities], a type name absent from [types],
    a creature name absent from [pokemon] (names compared case apart). *)
Theorem unknown_name_empty_answer d requested :
  ((forall a, In a (abilities d) -> Str.lower (name a) <> Str.lower requested) ->
   get_pokemon_by_ability (Some d) requested = inr [])
  /\ ((forall t, In t (types d) -> Str.lower (name t) <> Str.lower requested) ->
      get_pokemon_by_type (Some d) requested = inr [])
  /\ ((forall p, In p (pokemon d) -> Str.lower (name p) <> Str.lower requested) ->
      get_trainers_by_pokemon (Some d) requested = inr []
      /\ get_abilities_by_pokemon (Some d) requested = inr []).
Proof.
  split; [|split].
  - intro Hnone. unfold get_pokemon_by_ability. cbn [connect_db pending].
    rewrite (no_names_empty (select_pokemon_by_ability requested d)); [reflexivity|].
    intros n Hn. unfold select_pokemon_by_ability in Hn.
    apply distinct_In in Hn. destruct Hn as [Hn _]. apply join_on_links_In in Hn.
    destruct Hn as (p & tpa & a & _ & _ & Ha & _ & _ & Hlow & _).
    exact (Hnone a Ha Hlow).
  - intro Hnone. unfold get_pokemon_by_type. cbn [connect_db pending].
    rewrite (no_names_empty (select_pokemon_by_type requested d)); [reflexivity|].
    intros n Hn. apply select_pokemon_by_type_In in Hn.
    destruct Hn as (p & t & _ & Ht & _ & Hlow & _).
    exact (Hnone t Ht Hlow).
  - intro Hnone.
    unfold get_trainers_by_pokemon, get_abilities_by_pokemon. cbn [connect_db pending].
    rewrite (no_names_empty (select_trainers_by_pokemon requested d)).
    + rewrite (no_names_empty (select_abilities_by_pokemon requested d)); [auto|].
      intros n Hn. unfold select_abilities_by_pokemon in Hn.
      apply distinct_In in Hn. destruct Hn as [Hn _]. apply join_on_links_In in Hn.
      destruct Hn as (a & tpa & p & _ & _ & Hp & _ & _ & Hlow & _).
      exact (Hnone p Hp Hlow).
    + intros n Hn. unfold select_trainers_by_pokemon in Hn.
      apply distinct_In in Hn. destruct Hn as [Hn _]. apply join_on_links_In in Hn.
      destruct Hn as (tr & tpa & p & _ & _ & Hp & _ & _ & Hlow & _).
      exact (Hnone p Hp Hlow).
Qed.

(** ** Trimming and title-casing are stable *)

Module NormalFacts.
Import Str.

Lemma to_upper_idem c : to_upper (to_upper c) = to_upper c.
Proof. StrFacts.by_cases_on c. Qed.

Lemma iscased_to_upper c : iscased (to_upper c) = iscased c.
Proof. StrFacts.by_cases_on c. Qed.

Lemma isspace_to_upper c : isspace (to_upper c) = isspace c.
Proof. StrFacts.by_cases_on c. Qed.

Lemma cased_not_space c : iscased c = true -> isspace c = false.
Proof.
  destruct c as [[] [] [] [] [] [] [] []]; vm_compute; intro H;
    first [reflexivity | discriminate H].
Qed.

Lemma title_from_idem b s : title_from b (title_from b s) = title_from b s.
Proof.
  revert b. induction s as [|c s IH]; intro b; cbn [title_from]; [reflexivity|].
  destruct (iscased c) eqn:Hc; cbn [title_from].
  - destruct b.
    + rewrite StrFacts.iscased_to_lower, Hc, StrFacts.to_lower_idem, IH. reflexivity.
    + rewrite iscased_to_upper, Hc, to_upper_idem, IH. reflexivity.
  - rewrite Hc, IH. reflexivity.
Qed.

Lemma title_idem s : title (title s) = title s.
Proof. apply title_from_idem. Qed.

Lemma lstrip_title s : lstrip (title_from false s) = title_from false (lstrip s).
Proof.
  induction s as [|c s IH]; [reflexivity|].
  cbn [title_from lstrip].
  destruct (iscased c) eqn:Hc.
  - rewrite (cased_not_space c Hc). cbn [lstrip title_from].
    rewrite isspace_to_upper, (cased_not_space c Hc), Hc. reflexivity.
  - cbn [lstrip]. destruct (isspace c); [exact IH|].
    cbn [title_from]. rewrite Hc. reflexivity.
Qed.

Lemma title_from_empty b s : title_from b s = EmptyString -> s = EmptyString.
Proof.
  destruct s as [|c s]; [reflexivity|]. cbn [title_from].
  destruct (iscased c); discriminate.
Qed.

Lemma rstrip_title b s : rstrip (title_from b s) = title_from b (rstrip s).
Proof.
  revert b. induction s as [|c s IH]; intro b; [reflexivity|].
  cbn [rstrip].
  destruct (rstrip s) as [|x r] eqn:Hr.
  - assert (Hrest : forall b', rstrip (title_from b' s) = EmptyString)
      by (intro b'; rewrite IH; reflexivity).
    cbn [title_from].
    destruct (iscased c) eqn:Hc.
    + rewrite (cased_not_space c Hc). cbn [rstrip title_from]. rewrite Hrest, Hc.
      destruct b.
      * rewrite StrFacts.isspace_to_lower, (cased_not_space c Hc). reflexivity.
      * rewrite isspace_to_upper, (cased_not_space c Hc). reflexivity.
    + cbn [rstrip]. rewrite Hrest.
      destruct (isspace c); [reflexivity|]. cbn [title_from]. rewrite Hc. reflexivity.
  - assert (Hrest : forall b', exists y r',
              rstrip (title_from b' s) = String y r'
              /\ title_from b' (String x r) = String y r').
    { intro b'. rewrite IH. cbn [title_from].
      destruct (iscased x); eexists; eexists; split; reflexivity. }
    cbn [title_from].
    destruct (iscased c) eqn:Hc; cbn [rstrip].
    + destruct (Hrest true) as (y & r' & Hy & Ht). rewrite Hy, <- Ht. reflexivity.
    + destruct (Hrest false) as (y & r' & Hy & Ht). rewrite Hy, <- Ht. reflexivity.
Qed.

Lemma strip_title s : strip (title s) = title (strip s).
Proof. unfold strip, title. rewrite lstrip_title, rstrip_title. reflexivity. Qed.

Lemma lstrip_idem s : lstrip (lstrip s) = lstrip s.
Proof.
  induction s as [|c s IH]; [reflexivity|]. cbn [lstrip].
  destruct (isspace c) eqn:Hc; [exact IH|]. cbn [lstrip]. rewrite Hc. reflexivity.
Qed.

Lemma rstrip_idem s : rstrip (rstrip s) = rstrip s.
Proof.
  induction s as [|c s IH]; [reflexivity|]. cbn [rstrip].
  destruct (rstrip s) as [|x r] eqn:Hr.
  - destruct (isspace c) eqn:Hc; [reflexivity|]. cbn [rstrip]. rewrite Hc. reflexivity.
  - change (rstrip (String c (String x r))) with
      (match rstrip (String x r) with
       | EmptyString => if isspace c then EmptyString else String c EmptyString
       | String y r' => String c (String y r')
       end).
    rewrite IH. reflexivity.
Qed.

Lemma lstrip_rstrip s : lstrip (rstrip s) = rstrip (lstrip s).
Proof.
  induction s as [|c s IH]; [reflexivity|]. cbn [rstrip lstrip].
  destruct (isspace c) eqn:Hc.
  - rewrite <- IH. destruct (rstrip s) as [|x r]; [reflexivity|].
    cbn [lstrip]. rewrite Hc. reflexivity.
  - cbn [rstrip]. destruct (rstrip s) as [|x r]; cbn [lstrip]; rewrite Hc; reflexivity.
Qed.

Lemma strip_idem s : strip (strip s) = strip s.
Proof.
  unfold strip. rewrite lstrip_rstrip, lstrip_idem, rstrip_idem. reflexivity.
Qed.

(** A name written by the casing loop is left as it is by a further
    [strip().title()]. *)
Lemma normal_form s : title (strip (title (strip s))) = title (strip s).
Proof. rewrite strip_title, strip_idem, title_idem. reflexivity. Qed.

End NormalFacts.

(** ** What the pass keeps of every row *)

Section RowLoopFrame.
Context {C : Type}.
Variable f : string -> option string.
Variable step : table C -> Z * string -> table C.
Hypothesis step_spec : forall t i n,
  step t (i, n) = match f n with
                  | Some n' => update_name n' i t
                  | None => t
                  end.

Lemma update_name_cases n' i (t : table C) r' :
  In r' (update_name n' i t) ->
  (In r' t /\ id r' <> i)
  \/ (exists r, In r t /\ id r = i /\ r' = Row i n' (cols r)).
Proof.
  unfold update_name. rewrite in_map_iff. intros (r & Hr & Hin).
  destruct (Z.eqb_spec (id r) i) as [Heq|Hneq]; subst r'.
  - right. exists r. rewrite Heq. auto.
  - left. auto.
Qed.

(** The loop changes no id and no other column, and makes no row. *)
Lemma loop_origin (snap : list (Z * string)) : forall t r',
  In r' (fold_left step snap t) ->
  exists r, In r t /\ id r = id r' /\ cols r = cols r'.
Proof.
  induction snap as [|[i n] rest IH]; intros t r' Hin.
  - exists r'. auto.
  - cbn [fold_left] in Hin. apply IH in Hin. destruct Hin as (r1 & Hin1 & Hid1 & Hcols1).
    rewrite step_spec in Hin1. destruct (f n) as [n'|].
    + apply update_name_cases in Hin1.
      destruct Hin1 as [[Hin Hne]|(r & Hin & Hid & ->)].
      * exists r1. auto.
      * exists r. cbn [id cols] in *. split; [exact Hin|]. split; congruence.
    + exists r1. auto.
Qed.

Lemma loop_length (snap : list (Z * string)) : forall t,
  List.length (fold_left step snap t) = List.length t.
Proof.
  induction snap as [|[i n] rest IH]; intro t; [reflexivity|].
  cbn [fold_left]. rewrite IH, step_spec.
  destruct (f n); [apply length_map | reflexivity].
Qed.

(** When the body always writes, a row of a fetched id ends with a written
    name. *)
Lemma loop_written (Htotal : forall n, f n <> None) (snap : list (Z * string)) :
  forall t r',
    In r' (fold_left step snap t) ->
    (exists n, f n = Some (name r'))
    \/ (In r' t /\ ~ In (id r') (map fst snap)).
Proof.
  induction snap as [|[i n] rest IH]; intros t r' Hin.
  - right. auto.
  - cbn [fold_left] in Hin. destruct (IH _ _ Hin) as [Hw|[Hin1 Hfresh]];
      [left; exact Hw|].
    rewrite step_spec in Hin1. destruct (f n) as [n'|] eqn:Hfn;
      [|exfalso; exact (Htotal n Hfn)].
    apply update_name_cases in Hin1.
    destruct Hin1 as [[Hin0 Hne]|(r & Hr & Hid & ->)].
    + right. split; [exact Hin0|].
      cbn [map fst In]. intros [E|E]; [congruence | exact (Hfresh E)].
    + left. exists n. exact Hfn.
Qed.

End RowLoopFrame.

Lemma correct_row_spec gcm official (t : table type_slots) i n :
  correct_row gcm official t (i, n)
  = match correction gcm official n with
    | Some n' => update_name n' i t
    | None => t
    end.
Proof.
  unfold correct_row, correction.
  destruct (Str.contains official (Str.lower (Str.strip n))); [reflexivity|].
  destruct (gcm (Str.lower (Str.strip n)) official 1%nat (Qmake 8 10)) as [|m ms];
    [reflexivity|].
  destruct (negb (String.eqb m (Str.lower (Str.strip n)))); reflexivity.
Qed.

Lemma standardise_row_spec {C : Type} (t : table C) i n :
  standardise_row t (i, n)
  = match Some (Str.title (Str.strip n)) with
    | Some n' => update_name n' i t
    | None => t
    end.
Proof. reflexivity. Qed.

Lemma standardise_origin {C : Type} (t : table C) r' :
  In r' (standardise t) ->
  (exists r, In r t /\ id r = id r' /\ cols r = cols r')
  /\ Str.title (Str.strip (name r')) = name r'.
Proof.
  intro Hin. unfold standardise in Hin. split.
  - exact (loop_origin (fun n => Some (Str.title (Str.strip n))) standardise_row
                       standardise_row_spec _ _ _ Hin).
  - assert (Htotal : forall n, Some (Str.title (Str.strip n)) <> None)
      by (intros n; discriminate).
    destruct (loop_written (C := C) (fun n => Some (Str.title (Str.strip n)))
                           standardise_row standardise_row_spec Htotal _ _ _ Hin)
      as [(n & Hn)|[Hin0 Hfresh]].
    + injection Hn as <-. apply NormalFacts.normal_form.
    + exfalso. apply Hfresh. unfold select_id_name. rewrite map_map. cbn [fst].
      apply in_map. exact Hin0.
Qed.

Lemma delete_sentinels_incl {C : Type} (t : table C) r :
  In r (delete_sentinels t) -> In r t.
Proof. unfold delete_sentinels. rewrite filter_In. tauto. Qed.

(** One table through deduplication, casing and purge. *)
Lemma cleaned_row {C : Type} (t : table C) r' :
  In r' (delete_sentinels (standardise (delete_duplicates t))) ->
  (exists r, In r t /\ id r = id r' /\ cols r = cols r')
  /\ Str.title (Str.strip (name r')) = name r'.
Proof.
  intro Hin. apply delete_sentinels_incl in Hin.
  apply standardise_origin in Hin. destruct Hin as [(r & Hr & Hid & Hcols) Hnormal].
  split; [|exact Hnormal].
  exists r. split; [exact (delete_duplicates_incl t r Hr) | auto].
Qed.

Lemma cleaned_length {C : Type} (t : table C) :
  (List.length (delete_sentinels (standardise (delete_duplicates t))) <= List.length t)%nat.
Proof.
  unfold delete_sentinels, standardise.
  eapply Nat.le_trans; [apply filter_length_le|].
  rewrite (loop_length (fun n => Some (Str.title (Str.strip n))) standardise_row
                       standardise_row_spec).
  unfold delete_duplicates. apply filter_length_le.
Qed.

Section PassFrame.
Variable get_close_matches : string -> list string -> nat -> Q -> list string.

Lemma correct_names_origin official (t : table type_slots) r' :
  In r' (correct_names get_close_matches official t) ->
  exists r, In r t /\ id r = id r' /\ cols r = cols r'.
Proof.
  intro Hin. unfold correct_names in Hin.
  exact (loop_origin (correction get_close_matches official) _
                     (correct_row_spec get_close_matches official) _ _ _ Hin).
Qed.

(** X7. The pass makes no row and changes nothing but names: every row of
    a table after the pass has the id of a row the table held before, and a
    creature row also has that row's two type slots; no table grows. *)
Theorem pass_only_renames_or_deletes apiapiresponse d :
  exists d',
    reconcile get_close_matches apiapiresponse (Some d) = Some d'
    /\ (forall r', In r' (pokemon d') ->
         exists r, In r (pokemon d) /\ id r = id r'
                   /\ type1_id r = type1_id r' /\ type2_id r = type2_id r')
    /\ (forall r', In r' (types d') -> exists r, In r (types d) /\ id r = id r')
    /\ (forall r', In r' (abilities d') -> exists r, In r (abilities d) /\ id r = id r')
    /\ (forall r', In r' (trainers d') -> exists r, In r (trainers d) /\ id r = id r')
    /\ (List.length (pokemon d') <= List.length (pokemon d))%nat
    /\ (List.length (types d') <= List.length (types d))%nat
    /\ (List.length (abilities d') <= List.length (abilities d))%nat
    /\ (List.length (trainers d') <= List.length (trainers d))%nat.
Proof.
  eexists. split; [apply reconcile_tables|].
  cbn [pokemon types abilities trainers].
  assert (Hentity : forall (t : table unit) r',
            In r' (delete_sentinels (standardise (delete_duplicates t))) ->
            exists r, In r t /\ id r = id r').
  { intros t r' Hin. destruct (cleaned_row t r' Hin) as [(r & Hr & Hid & _) _].
    exists r. auto. }
  split; [|repeat split; try apply Hentity; try apply cleaned_length].
  - intros r' Hin. destruct (cleaned_row _ r' Hin) as [(r1 & Hr1 & Hid1 & Hcols1) _].
    destruct (correct_names_origin _ _ _ Hr1) as (r & Hr & Hid & Hcols).
    exists r. unfold type1_id, type2_id. split; [exact Hr|].
    split; [congruence|]. split; congruence.
  - eapply Nat.le_trans; [apply cleaned_length|].
    unfold correct_names.
    rewrite (loop_length (correction get_close_matches _) _
                         (correct_row_spec get_close_matches _)).
    apply Nat.le_refl.
Qed.

(** X8. After the pass every name of the four entity tables is trimmed and
    title-cased: [strip().title()] applied to it gives it back. *)
Theorem pass_names_normalised apiapiresponse d :
  exists d',
    reconcile get_close_matches apiapiresponse (Some d) = Some d'
    /\ (forall r, In r (pokemon d') -> Str.title (Str.strip (name r)) = name r)
    /\ (forall r, In r (types d') -> Str.title (Str.strip (name r)) = name r)
    /\ (forall r, In r (abilities d') -> Str.title (Str.strip (name r)) = name r)
    /\ (forall r, In r (trainers d') -> Str.title (Str.strip (name r)) = name r).
Proof.
  eexists. split; [apply reconcile_tables|].
  cbn [pokemon types abilities trainers].
  repeat split; intros r Hin; exact (proj2 (cleaned_row _ r Hin)).
Qed.

End PassFrame.

(** ** What deduplication guarantees *)

Lemma kept_is_group_min {C : Type} (t : table C) r :
  NoDup (map id t) -> In r (delete_duplicates t) ->
  min_id (Str.lower (name r)) t = Some (id r).
Proof.
  intros Hnd Hin. unfold delete_duplicates in Hin. apply filter_In in Hin.
  destruct Hin as [Hin Hsel]. apply existsb_exists in Hsel.
  destruct Hsel as (m & Hm & Heq). apply Z.eqb_eq in Heq. subst m.
  unfold select_min_ids in Hm. apply in_flat_map in Hm.
  destruct Hm as (key & _ & Hm).
  destruct (min_id key t) as [m|] eqn:Hmin; [|contradiction].
  destruct Hm as [Hm|[]]. subst m.
  destruct (min_id_spec _ _ _ Hmin) as [(r0 & Hr0 & Hid0 & Hkey) _].
  assert (r0 = r) by (apply (unique_row t); auto). subst r0.
  rewrite Hkey. exact Hmin.
Qed.

Lemma dedup_unique {C : Type} (t : table C) r1 r2 :
  NoDup (map id t) ->
  In r1 (delete_duplicates t) -> In r2 (delete_duplicates t) ->
  Str.lower (name r1) = Str.lower (name r2) -> r1 = r2.
Proof.
  intros Hnd H1 H2 Hname.
  pose proof (kept_is_group_min t r1 Hnd H1) as M1.
  pose proof (kept_is_group_min t r2 Hnd H2) as M2.
  rewrite Hname, M2 in M1. injection M1 as Hid.
  apply (unique_row t); auto using delete_duplicates_incl.
Qed.

(** A table of unique ids and trimmed names, through deduplication, casing
    and purge: no two rows are left with names equal case apart. *)
Lemma cleaned_unique {C : Type} (t : table C) r1 r2 :
  NoDup (map id t) ->
  (forall r, In r t -> Str.strip (name r) = name r) ->
  In r1 (delete_sentinels (standardise (delete_duplicates t))) ->
  In r2 (delete_sentinels (standardise (delete_duplicates t))) ->
  Str.lower (name r1) = Str.lower (name r2) -> r1 = r2.
Proof.
  intros Hnd Htrim H1 H2 Hname.
  apply delete_sentinels_incl in H1, H2.
  assert (Hnd2 : NoDup (map id (delete_duplicates t))) by (apply NoDup_ids_filter; exact Hnd).
  rewrite (standardise_rowwise _ Hnd2) in H1, H2.
  apply in_map_iff in H1, H2.
  destruct H1 as (a & <- & Ha). destruct H2 as (b & <- & Hb).
  cbn [name] in Hname.
  rewrite !StrFacts.lower_title in Hname.
  rewrite (Htrim a (delete_duplicates_incl t a Ha)) in Hname.
  rewrite (Htrim b (delete_duplicates_incl t b Hb)) in Hname.
  rewrite (dedup_unique t a b Hnd Ha Hb Hname). reflexivity.
Qed.

(** Of every name of a table of unique ids a row is left, under the
    normalised name and an id at most as large, unless that name is a
    sentinel. *)
Lemma cleaned_representative {C : Type} (t : table C) r :
  NoDup (map id t) -> In r t ->
  ~ In (Str.title (Str.strip (name r))) sentinels ->
  exists r', In r' (delete_sentinels (standardise (delete_duplicates t)))
             /\ name r' = Str.title (Str.strip (name r)) /\ id r' <= id r.
Proof.
  intros Hnd Hin Hreal.
  destruct (group_representative t r Hin) as (r0 & Hr0 & Hname & Hle).
  assert (Hnd2 : NoDup (map id (delete_duplicates t))) by (apply NoDup_ids_filter; exact Hnd).
  assert (Hnorm : Str.title (Str.strip (name r0)) = Str.title (Str.strip (name r))).
  { rewrite (StrFacts.title_strip_lower (name r0)), Hname,
      <- (StrFacts.title_strip_lower (name r)). reflexivity. }
  exists (Row (id r0) (Str.title (Str.strip (name r0))) (cols r0)).
  split; [|split; [exact Hnorm | exact Hle]].
  unfold delete_sentinels. apply filter_In. split.
  - rewrite (standardise_rowwise _ Hnd2). apply in_map_iff. exists r0. auto.
  - cbn [name]. rewrite Hnorm.
    destruct (Str.contains sentinels (Str.title (Str.strip (name r)))) eqn:Hs;
      [|reflexivity].
    apply StrFacts.contains_In in Hs. contradiction.
Qed.

Section PassDedup.
Variable get_close_matches : string -> list string -> nat -> Q -> list string.

Lemma correct_names_ids official (t : table type_slots) :
  NoDup (map id t) -> NoDup (map id (correct_names get_close_matches official t)).
Proof.
  intro Hnd. rewrite (correct_names_rowwise _ _ _ Hnd), map_map.
  erewrite map_ext; [exact Hnd|]. intro r. cbn beta.
  destruct (correction get_close_matches official (name r)); reflexivity.
Qed.

(** X9. When the ids of a table are unique and its names carry no leading
    or trailing whitespace (for the creature table: the names as the
    correction step leaves them), the pass leaves no two rows of that table
    with names equal case apart. *)
Theorem pass_deduplicates_trimmed official d :
  NoDup (map id (pokemon d)) -> NoDup (map id (types d)) ->
  NoDup (map id (abilities d)) -> NoDup (map id (trainers d)) ->
  (forall r, In r (correct_names get_close_matches official (pokemon d)) ->
             Str.strip (name r) = name r) ->
  (forall r, In r (types d) -> Str.strip (name r) = name r) ->
  (forall r, In r (abilities d) -> Str.strip (name r) = name r) ->
  (forall r, In r (trainers d) -> Str.strip (name r) = name r) ->
  exists d',
    reconcile get_close_matches (Some official) (Some d) = Some d'
    /\ (forall r1 r2, In r1 (pokemon d') -> In r2 (pokemon d') ->
                      Str.lower (name r1) = Str.lower (name r2) -> r1 = r2)
    /\ (forall r1 r2, In r1 (types d') -> In r2 (types d') ->
                      Str.lower (name r1) = Str.lower (name r2) -> r1 = r2)
    /\ (forall r1 r2, In r1 (abilities d') -> In r2 (abilities d') ->
                      Str.lower (name r1) = Str.lower (name r2) -> r1 = r2)
    /\ (forall r1 r2, In r1 (trainers d') -> In r2 (trainers d') ->
                      Str.lower (name r1) = Str.lower (name r2) -> r1 = r2).
Proof.
  intros Np Nt Na Ntr Tp Tt Ta Ttr.
  eexists. split; [apply reconcile_tables|].
  cbn [pokemon types abilities trainers].
  repeat split; intros r1 r2; apply cleaned_unique; auto using correct_names_ids.
Qed.

(** X10. The pass loses no name: when the ids of a table are unique, every
    row it holds (for the creature table: as the correction step leaves it)
    has a row left after the pass that carries its trimmed, title-cased
    name under an id at most as large, unless that name is a sentinel. *)
Theorem pass_keeps_every_name official d :
  NoDup (map id (pokemon d)) -> NoDup (map id (types d)) ->
  NoDup (map id (abilities d)) -> NoDup (map id (trainers d)) ->
  exists d',
    reconcile get_close_matches (Some official) (Some d) = Some d'
    /\ (forall r, In r (correct_names get_close_matches official (pokemon d)) ->
          ~ In (Str.title (Str.strip (name r))) ["---"; "???"; ""] ->
          exists r', In r' (pokemon d')
                     /\ name r' = Str.title (Str.strip (name r)) /\ id r' <= id r)
    /\ (forall r, In r (types d) ->
          ~ In (Str.title (Str.strip (name r))) ["---"; "???"; ""] ->
          exists r', In r' (types d')
                     /\ name r' = Str.title (Str.strip (name r)) /\ id r' <= id r)
    /\ (forall r, In r (abilities d) ->
          ~ In (Str.title (Str.strip (name r))) ["---"; "???"; ""] ->
          exists r', In r' (abilities d')
                     /\ name r' = Str.title (Str.strip (name r)) /\ id r' <= id r)
    /\ (forall r, In r (trainers d) ->
          ~ In (Str.title (Str.strip (name r))) ["---"; "???"; ""] ->
          exists r', In r' (trainers d')
                     /\ name r' = Str.title (Str.strip (name r)) /\ id r' <= id r).
Proof.
  intros Np Nt Na Ntr.
  eexists. split; [apply reconcile_tables|].
  cbn [pokemon types abilities trainers].
  repeat split; intros r Hin Hreal; apply cleaned_representative;
    auto using correct_names_ids.
Qed.

Lemma correct_names_all_official official (snap : list (Z * string)) :
  forall t : table type_slots,
    (forall p, In p snap -> In (Str.lower (Str.strip (snd p))) official) ->
    fold_left (correct_row get_close_matches official) snap t = t.
Proof.
  induction snap as [|[i n] rest IH]; intros t Hofficial; [reflexivity|].
  cbn [fold_left]. unfold correct_row at 2.
  assert (Hin : Str.contains official (Str.lower (Str.strip n)) = true).
  { apply StrFacts.contains_In. apply (Hofficial (i, n)). left. reflexivity. }
  rewrite Hin. apply IH. intros p Hp. apply Hofficial. right. exact Hp.
Qed.

(** X11. The correction step rewrites no name that, trimmed and
    lower-cased, is in the official list: a creature table whose names are
    all official in that sense comes out of the step as it went in. *)
Theorem official_names_not_corrected official (t : table type_slots) :
  (forall r, In r t -> In (Str.lower (Str.strip (name r))) official) ->
  correct_names get_close_matches official t = t.
Proof.
  intro Hofficial. unfold correct_names. apply correct_names_all_official.
  intros p Hp. unfold select_id_name in Hp. apply in_map_iff in Hp.
  destruct Hp as (r & <- & Hr). cbn [snd]. exact (Hofficial r Hr).
Qed.

End PassDedup.

Lemma difflib_no_candidates (snap : list (Z * string)) : forall t : table type_slots,
  fold_left (correct_row difflib.get_close_matches []) snap t = t.
Proof.
  induction snap as [|[i n] rest IH]; intro t; [reflexivity|].
  cbn [fold_left]. rewrite <- (IH t) at 2. reflexivity.
Qed.

(** X12. When the request for the official names fails, the official list
    is empty and no creature name is corrected: the creature table comes
    out of the pass deduplicated, cased and purged from what it held, like
    the other three tables. *)
Theorem fetch_failure_skips_correction d :
  exists d',
    reconcile difflib.get_close_matches None (Some d) = Some d'
    /\ pokemon d' = delete_sentinels (standardise (delete_duplicates (pokemon d))).
Proof.
  eexists. split; [apply reconcile_tables|].
  cbn [pokemon]. unfold correct_names. rewrite difflib_no_candidates. reflexivity.
Qed.

(** ** Ingestion, statement by statement *)

Lemma fold_max_bounds (rest : list Z) : forall a,
  a <= fold_left Z.max rest a /\ forall x, In x rest -> x <= fold_left Z.max rest a.
Proof.
  induction rest as [|y rest IH]; intro a; cbn [fold_left].
  - split; [lia | intros x []].
  - destruct (IH (Z.max a y)) as [Hge Hall]. split; [lia|].
    intros x [<-|Hx]; [lia | exact (Hall x Hx)].
Qed.

(** The rowid of an inserted row is larger than every rowid in use. *)
Lemma next_rowid_fresh (ids : list Z) i : In i ids -> i < next_rowid ids.
Proof.
  destruct ids as [|i0 rest]; [contradiction|]. cbn [next_rowid].
  destruct (fold_max_bounds rest i0) as [Hge Hall].
  intros [<-|Hin]; [lia|]. specialize (Hall i Hin). lia.
Qed.

Lemma NoDup_snoc {A : Type} (l : list A) x : NoDup l -> ~ In x l -> NoDup (l ++ [x]).
Proof.
  induction l as [|y l IH]; intros Hnd Hfresh; cbn [app].
  - constructor; [intros [] | constructor].
  - inversion Hnd as [|? ? Hy Hnd']; subst. constructor.
    + intro Hin. apply in_app_or in Hin. destruct Hin as [Hin|[Heq|[]]].
      * exact (Hy Hin).
      * apply Hfresh. left. symmetry. exact Heq.
    + apply IH; [exact Hnd'|]. intro Hin. apply Hfresh. right. exact Hin.
Qed.

Lemma select_id_by_name_none {C : Type} parameter (t : table C) :
  select_id_by_name parameter t = None ->
  forall r, In r t -> Str.lower (name r) <> Str.lower parameter.
Proof.
  unfold select_id_by_name. intros Hsel r Hin Hname.
  destruct (find _ t) as [r0|] eqn:Hfind; [discriminate|].
  apply (find_none _ _ Hfind) in Hin. cbn beta in Hin.
  rewrite Hname, String.eqb_refl in Hin. discriminate.
Qed.

(** Appending a row under a fresh rowid and a name no row carries, case
    apart, keeps ids and names unique. *)
Lemma append_keeps_unique {C : Type} (t : table C) new_name parameter (c : C) :
  Str.lower new_name = Str.lower parameter ->
  select_id_by_name parameter t = None ->
  (NoDup (map id t) ->
   NoDup (map id (t ++ [Row (next_rowid (map id t)) new_name c])))
  /\ (NoDup (map (fun r => Str.lower (name r)) t) ->
      NoDup (map (fun r => Str.lower (name r))
                 (t ++ [Row (next_rowid (map id t)) new_name c]))).
Proof.
  intros Hname Hnone. split; intro Hnd; rewrite map_app; cbn [map id name].
  - apply NoDup_snoc; [exact Hnd|]. intro Hin.
    apply next_rowid_fresh in Hin. lia.
  - apply NoDup_snoc; [exact Hnd|]. intro Hin.
    apply in_map_iff in Hin. destruct Hin as (r & Hr & Hin).
    apply (select_id_by_name_none parameter t Hnone r Hin). congruence.
Qed.

(** The loop over the declared types appends rows to [types] and touches
    nothing else; it keeps ids and names of [types] unique. *)
Lemma resolve_types_full entries : forall type_ids file P T A Tr L,
  exists ids added,
    resolve_types entries type_ids (Conn file (Db P T A Tr L))
    = (inr (type_ids ++ ids)%list, Conn file (Db P (T ++ added)%list A Tr L))
    /\ List.length ids = List.length entries
    /\ (NoDup (map id T) -> NoDup (map id (T ++ added)%list))
    /\ (NoDup (map (fun r => Str.lower (name r)) T) ->
        NoDup (map (fun r => Str.lower (name r)) (T ++ added)%list))
    /\ Forall2 (fun entry i =>
                  exists r, In r (T ++ added)%list /\ id r = i
                            /\ Str.lower (name r) = Str.lower (Str.strip entry))
               entries ids.
Proof.
  induction entries as [|entry rest IH]; intros type_ids file P T A Tr L.
  - exists [], []. rewrite !app_nil_r. cbn [resolve_types ret]. repeat split; auto.
  - cbn [resolve_types]. unfold bind at 1. unfold fetch at 1. cbn [pending types].
    destruct (select_id_by_name (Str.lower (Str.strip entry)) T) as [i|] eqn:Hsel.
    + unfold bind at 1. cbn [ret].
      destruct (IH (type_ids ++ [i])%list file P T A Tr L)
        as (ids & added & Hrun & Hlen & Hid & Hname & Hids).
      exists (i :: ids), added. rewrite Hrun, <- app_assoc.
      split; [reflexivity|]. split; [cbn; congruence|].
      split; [exact Hid|]. split; [exact Hname|].
      constructor; [|exact Hids].
      destruct (select_id_by_name_found _ _ _ Hsel) as (r & Hin & Hr & Hlow).
      exists r. rewrite StrFacts.lower_idem in Hlow.
      split; [apply in_or_app; left; exact Hin | auto].
    + unfold bind at 1. unfold run at 1. cbn [pending database].
      unfold insert_type, insert_name. cbn [types on_types pokemon abilities trainers
                                            trainer_pokemon_abilities].
      set (new_row := Row (next_rowid (map id T))
                          (Str.title (Str.lower (Str.strip entry))) tt).
      destruct (IH (type_ids ++ [next_rowid (map id T)])%list file P
                   (T ++ [new_row])%list A Tr L)
        as (ids & added & Hrun & Hlen & Hid & Hname & Hids).
      destruct (append_keeps_unique T (Str.title (Str.lower (Str.strip entry)))
                  (Str.lower (Str.strip entry)) tt (StrFacts.lower_title _) Hsel)
        as [Hid1 Hname1].
      fold new_row in Hid1, Hname1.
      exists (next_rowid (map id T) :: ids), (new_row :: added).
      unfold on_types. cbn [pokemon types abilities trainers trainer_pokemon_abilities].
      rewrite Hrun, <- !app_assoc. cbn [app].
      rewrite <- app_assoc in Hid, Hname, Hids. cbn [app] in Hid, Hname, Hids.
      split; [reflexivity|]. split; [cbn; congruence|].
      split; [auto|]. split; [auto|].
      constructor; [|exact Hids].
      exists new_row. split; [apply in_or_app; right; left; reflexivity|].
      split; [reflexivity|]. unfold new_row. cbn [name].
      rewrite StrFacts.lower_title, StrFacts.lower_idem. reflexivity.
Qed.

(** The upsert rewrites the slots of the rows of the found id, or appends
    a row; it keeps ids and names of [pokemon] unique and leaves the id and
    name of every row. *)
Lemma upsert_pokemon_full pokemon_name type1 type2 file P T A Tr L :
  exists pokemon_ P',
    upsert_pokemon pokemon_name type1 type2 (Conn file (Db P T A Tr L))
    = (inr pokemon_, Conn file (Db P' T A Tr L))
    /\ (exists added : table type_slots,
          select_id_name P' = (select_id_name P ++ select_id_name added)%list)
    /\ (NoDup (map id P) -> NoDup (map id P'))
    /\ (NoDup (map (fun r => Str.lower (name r)) P) ->
        NoDup (map (fun r => Str.lower (name r)) P'))
    /\ (exists p, In p P' /\ id p = pokemon_
                  /\ Str.lower (name p) = Str.lower pokemon_name
                  /\ cols p = (type1, type2)).
Proof.
  unfold upsert_pokemon, bind, fetch. cbn [pending pokemon].
  destruct (select_id_by_name pokemon_name P) as [i|] eqn:Hsel.
  - cbn [do_ ret execute pending database update_pokemon_types on_pokemon pokemon types
         abilities trainers trainer_pokemon_abilities].
    set (upd := fun r : row type_slots =>
                  if id r =? i then Row (id r) (name r) (type1, type2) else r).
    assert (Hid : forall r, id (upd r) = id r)
      by (intro r; unfold upd; destruct (id r =? i); reflexivity).
    assert (Hname : forall r, name (upd r) = name r)
      by (intro r; unfold upd; destruct (id r =? i); reflexivity).
    exists i, (map upd P). split; [reflexivity|]. split; [|split; [|split]].
    + exists []. cbn [select_id_name map]. rewrite app_nil_r.
      unfold select_id_name. rewrite map_map. apply map_ext. intro r.
      rewrite Hid, Hname. reflexivity.
    + rewrite map_map. rewrite (map_ext (fun r => id (upd r)) id Hid). auto.
    + rewrite map_map.
      rewrite (map_ext (fun r => Str.lower (name (upd r))) (fun r => Str.lower (name r)));
        [auto|].
      intro r. rewrite Hname. reflexivity.
    + destruct (select_id_by_name_found _ _ _ Hsel) as (r & Hin & Hr & Hlow).
      exists (upd r). split; [apply in_map; exact Hin|].
      rewrite Hid, Hname. split; [exact Hr|]. split; [exact Hlow|].
      unfold upd. rewrite Hr, Z.eqb_refl. reflexivity.
  - unfold run, insert_pokemon.
    cbn [pending database on_pokemon pokemon types abilities trainers
         trainer_pokemon_abilities].
    destruct (append_keeps_unique P (Str.title pokemon_name) pokemon_name (type1, type2)
                (StrFacts.lower_title _) Hsel) as [Hid1 Hname1].
    eexists. eexists. split; [reflexivity|]. split; [|split; [|split]].
    + eexists [_]. unfold select_id_name. rewrite map_app. reflexivity.
    + exact Hid1.
    + exact Hname1.
    + eexists. split; [apply in_or_app; right; left; reflexivity|].
      cbn [id name cols]. rewrite StrFacts.lower_title. auto.
Qed.

Lemma select_random_trainer_in draw d trainer :
  select_random_trainer draw d = Some trainer -> In trainer (map id (trainers d)).
Proof.
  unfold select_random_trainer. destruct (trainers d) as [|t ts]; [discriminate|].
  apply nth_error_In.
Qed.

Section IngestionDetail.
Variable requests_get : string -> requests.Response.
Variable random : nat -> nat.

(** The loop over the declared abilities, when a trainer exists: it
    appends rows to [abilities] and one link row per entry, and touches
    nothing else. *)
Lemma link_abilities_full entries : forall pokemon_ k new_tpa_ids file P T A Tr L,
  entries = [] \/ Tr <> [] ->
  exists added news,
    link_abilities random entries pokemon_ k new_tpa_ids (Conn file (Db P T A Tr L))
    = (inr (new_tpa_ids ++ map tpa_id news)%list,
       Conn file (Db P T (A ++ added)%list Tr (L ++ news)%list))
    /\ (NoDup (map id A) -> NoDup (map id (A ++ added)%list))
    /\ (NoDup (map (fun r => Str.lower (name r)) A) ->
        NoDup (map (fun r => Str.lower (name r)) (A ++ added)%list))
    /\ (NoDup (map tpa_id L) -> NoDup (map tpa_id (L ++ news)%list))
    /\ Forall2 (fun entry l =>
                  pokemon_id l = pokemon_
                  /\ In (trainer_id l) (map id Tr)
                  /\ exists a, In a (A ++ added)%list /\ id a = ability_id l
                               /\ Str.lower (name a) = Str.lower (Str.strip entry))
               entries news.
Proof.
  induction entries as [|entry rest IH]; intros pokemon_ k new_tpa_ids file P T A Tr L Hok.
  - exists [], []. rewrite !app_nil_r. cbn [link_abilities ret map].
    repeat split; auto.
  - destruct Hok as [Hnil|Htr]; [discriminate|].
    assert (Hstep : forall ability A1 pre,
      A1 = (A ++ pre)%list ->
      (NoDup (map id A) -> NoDup (map id A1)) ->
      (NoDup (map (fun r => Str.lower (name r)) A) ->
       NoDup (map (fun r => Str.lower (name r)) A1)) ->
      (exists a, In a A1 /\ id a = ability
                 /\ Str.lower (name a) = Str.lower (Str.strip entry)) ->
      exists added news,
        (trow <- fetch (select_random_trainer (random k)) ;;
         match trow with
         | None => do_ rollback ;; do_ close ;; raise (HTTP 500 "No trainers in the table")
         | Some trainer =>
             tpa <- run (insert_link trainer pokemon_ ability) ;;
             link_abilities random rest pokemon_ (S k) (new_tpa_ids ++ [tpa])%list
         end)%sql (Conn file (Db P T A1 Tr L))
        = (inr (new_tpa_ids ++ map tpa_id news)%list,
           Conn file (Db P T (A ++ added)%list Tr (L ++ news)%list))
        /\ (NoDup (map id A) -> NoDup (map id (A ++ added)%list))
        /\ (NoDup (map (fun r => Str.lower (name r)) A) ->
            NoDup (map (fun r => Str.lower (name r)) (A ++ added)%list))
        /\ (NoDup (map tpa_id L) -> NoDup (map tpa_id (L ++ news)%list))
        /\ Forall2 (fun entry l =>
                      pokemon_id l = pokemon_
                      /\ In (trainer_id l) (map id Tr)
                      /\ exists a, In a (A ++ added)%list /\ id a = ability_id l
                                   /\ Str.lower (name a) = Str.lower (Str.strip entry))
                   (entry :: rest) news).
    { intros ability A1 pre HA1 Hid1 Hname1 (a & Ha & Haid & Halow).
      unfold bind at 1. unfold fetch at 1. cbn [pending].
      destruct (select_random_trainer_some (random k) (Db P T A1 Tr L) Htr)
        as [trainer Hsome].
      pose proof (select_random_trainer_in _ _ _ Hsome) as Htrainer.
      cbn [trainers] in Htrainer.
      rewrite Hsome. unfold bind at 1. unfold run at 1. cbn [pending database].
      unfold insert_link, on_links.
      cbn [pokemon types abilities trainers trainer_pokemon_abilities].
      set (new_link := Tpa (next_rowid (map tpa_id L)) trainer pokemon_ ability).
      destruct (IH pokemon_ (S k) (new_tpa_ids ++ [next_rowid (map tpa_id L)])%list
                   file P T A1 Tr (L ++ [new_link])%list (or_intror Htr))
        as (added & news & Hrun & Hid & Hname & Hlinks & Hnews).
      exists (pre ++ added)%list, (new_link :: news).
      rewrite Hrun. subst A1. rewrite <- !app_assoc. cbn [app map tpa_id].
      rewrite <- !app_assoc in Hid, Hname, Hlinks, Hnews.
      cbn [app] in Hlinks.
      split; [reflexivity|]. split; [auto|]. split; [auto|]. split.
      - intro Hnd. apply Hlinks. rewrite map_app. cbn [map tpa_id].
        apply NoDup_snoc; [exact Hnd|]. intro Hin.
        apply next_rowid_fresh in Hin. unfold new_link in Hin. cbn [tpa_id] in Hin. lia.
      - constructor; [|exact Hnews].
        cbn [pokemon_id trainer_id ability_id]. split; [reflexivity|].
        split; [exact Htrainer|].
        exists a. split; [|auto].
        apply in_app_or in Ha. apply in_or_app.
        destruct Ha as [Ha|Ha]; [left; exact Ha | right; apply in_or_app; left; exact Ha]. }
    cbn [link_abilities]. unfold bind at 1. unfold fetch at 1. cbn [pending abilities].
    destruct (select_id_by_name (Str.lower (Str.strip entry)) A) as [i|] eqn:Hsel.
    + unfold bind at 1. cbn [ret].
      apply (Hstep i A []); [symmetry; apply app_nil_r | auto | auto |].
      destruct (select_id_by_name_found _ _ _ Hsel) as (r & Hin & Hr & Hlow).
      exists r. rewrite StrFacts.lower_idem in Hlow. auto.
    + unfold bind at 1. unfold run at 1. cbn [pending database].
      unfold insert_ability, insert_name, on_abilities.
      cbn [pokemon types abilities trainers trainer_pokemon_abilities].
      destruct (append_keeps_unique A (Str.title (Str.lower (Str.strip entry)))
                  (Str.lower (Str.strip entry)) tt (StrFacts.lower_title _) Hsel)
        as [Hid1 Hname1].
      apply (Hstep (next_rowid (map id A)) _
                   [Row (next_rowid (map id A))
                        (Str.title (Str.lower (Str.strip entry))) tt]);
        [reflexivity | exact Hid1 | exact Hname1 |].
      eexists. split; [apply in_or_app; right; left; reflexivity|].
      split; [reflexivity|]. cbn [name].
      rewrite StrFacts.lower_title, StrFacts.lower_idem. reflexivity.
Qed.

(** The three ways a call on an existing database file ends. *)
Lemma ingestion_not_found d pokemon_name :
  requests.status_code (requests_get (Str.lower pokemon_name)) <> 200 ->
  create_pokemon requests_get random (Some d) pokemon_name
  = (inl (HTTP 404 "Pokemon not found."), Some d).
Proof.
  intro Hstatus. unfold create_pokemon, create_pokemon_on. cbn [connect_db].
  apply Z.eqb_neq in Hstatus. rewrite Hstatus. reflexivity.
Qed.

Lemma ingestion_no_trainers d pokemon_name :
  requests.status_code (requests_get (Str.lower pokemon_name)) = 200 ->
  requests.abilities (requests.json (requests_get (Str.lower pokemon_name))) <> [] ->
  trainers d = [] ->
  create_pokemon requests_get random (Some d) pokemon_name
  = (inl (HTTP 500 "No trainers in the table"), Some d).
Proof.
  intros Hstatus Habilities Htrainers.
  unfold create_pokemon, create_pokemon_on. cbn [connect_db].
  rewrite Hstatus. cbn [Z.eqb Pos.eqb negb].
  destruct d as [P T A Tr L]. cbn [trainers] in Htrainers. subst Tr.
  destruct (resolve_types_full
              (requests.types (requests.json (requests_get (Str.lower pokemon_name))))
              [] (Db P T A [] L) P T A [] L)
    as (ids & added & Hrun1 & _).
  cbn [app] in Hrun1. unfold bind at 1. rewrite Hrun1.
  destruct (upsert_pokemon_full pokemon_name (nth_error ids 0) (nth_error ids 1)
              (Db P T A [] L) P (T ++ added)%list A [] L)
    as (pokemon_ & P' & Hrun2 & _).
  unfold bind at 1. rewrite Hrun2. unfold bind at 1.
  destruct (requests.abilities (requests.json (requests_get (Str.lower pokemon_name))))
    as [|entry rest]; [contradiction|].
  rewrite link_abilities_no_trainers by reflexivity. reflexivity.
Qed.

Lemma ingestion_success P T A Tr L pokemon_name :
  requests.status_code (requests_get (Str.lower pokemon_name)) = 200 ->
  requests.abilities (requests.json (requests_get (Str.lower pokemon_name))) = []
  \/ Tr <> [] ->
  exists ids added_types pokemon_ P' added_abilities news,
    create_pokemon requests_get random (Some (Db P T A Tr L)) pokemon_name
    = (inr (map tpa_id news),
       Some (Db P' (T ++ added_types)%list (A ++ added_abilities)%list Tr
                (L ++ news)%list))
    /\ (List.length ids
        = List.length (requests.types
                         (requests.json (requests_get (Str.lower pokemon_name))))
        /\ (NoDup (map id T) -> NoDup (map id (T ++ added_types)%list))
        /\ (NoDup (map (fun r => Str.lower (name r)) T) ->
            NoDup (map (fun r => Str.lower (name r)) (T ++ added_types)%list))
        /\ Forall2 (fun entry i =>
                      exists r, In r (T ++ added_types)%list /\ id r = i
                                /\ Str.lower (name r) = Str.lower (Str.strip entry))
                   (requests.types (requests.json (requests_get (Str.lower pokemon_name))))
                   ids)
    /\ ((exists added : table type_slots,
           select_id_name P' = (select_id_name P ++ select_id_name added)%list)
        /\ (NoDup (map id P) -> NoDup (map id P'))
        /\ (NoDup (map (fun r => Str.lower (name r)) P) ->
            NoDup (map (fun r => Str.lower (name r)) P'))
        /\ (exists p, In p P' /\ id p = pokemon_
                      /\ Str.lower (name p) = Str.lower pokemon_name
                      /\ cols p = (nth_error ids 0, nth_error ids 1)))
    /\ ((NoDup (map id A) -> NoDup (map id (A ++ added_abilities)%list))
        /\ (NoDup (map (fun r => Str.lower (name r)) A) ->
            NoDup (map (fun r => Str.lower (name r)) (A ++ added_abilities)%list))
        /\ (NoDup (map tpa_id L) -> NoDup (map tpa_id (L ++ news)%list))
        /\ Forall2 (fun entry l =>
                      pokemon_id l = pokemon_
                      /\ In (trainer_id l) (map id Tr)
                      /\ exists a, In a (A ++ added_abilities)%list /\ id a = ability_id l
                                   /\ Str.lower (name a) = Str.lower (Str.strip entry))
                   (requests.abilities
                      (requests.json (requests_get (Str.lower pokemon_name))))
                   news).
Proof.
  intros Hstatus Hok.
  destruct (resolve_types_full
              (requests.types (requests.json (requests_get (Str.lower pokemon_name))))
              [] (Db P T A Tr L) P T A Tr L)
    as (ids & added_types & Hrun1 & Htypes).
  cbn [app] in Hrun1.
  destruct (upsert_pokemon_full pokemon_name (nth_error ids 0) (nth_error ids 1)
              (Db P T A Tr L) P (T ++ added_types)%list A Tr L)
    as (pokemon_ & P' & Hrun2 & Hupsert).
  destruct (link_abilities_full
              (requests.abilities (requests.json (requests_get (Str.lower pokemon_name))))
              pokemon_ 0%nat [] (Db P T A Tr L) P' (T ++ added_types)%list A Tr L Hok)
    as (added_abilities & news & Hrun3 & Hlinks).
  cbn [app] in Hrun3.
  exists ids, added_types, pokemon_, P', added_abilities, news.
  split; [|split; [exact Htypes | split; [exact Hupsert | exact Hlinks]]].
  unfold create_pokemon, create_pokemon_on. cbn [connect_db].
  rewrite Hstatus. cbn [Z.eqb Pos.eqb negb].
  unfold bind at 1. rewrite Hrun1.
  unfold bind at 1. rewrite Hrun2.
  unfold bind at 1. rewrite Hrun3. reflexivity.
Qed.

End IngestionDetail.

Lemma declared_or_trainers {X Y : Type} (declared : list X) (present : list Y) :
  (declared <> [] /\ present = []) \/ (declared = [] \/ present <> []).
Proof.
  destruct declared as [|x declared]; [right; left; reflexivity|].
  destruct present as [|y present]; [left; split; [discriminate | reflexivity]|].
  right. right. discriminate.
Qed.

Section IngestionProperties.
Variable requests_get : string -> requests.Response.
Variable random : nat -> nat.

(** X13. A call of [create_pokemon] on an existing database file that ends
    with an error leaves the file as it was, and the error is either 404
    "Pokemon not found." (the provider did not answer 200) or 500 "No
    trainers in the table" (it answered 200 with at least one ability and
    the trainers table is empty). *)
Theorem ingestion_error_leaves_file d pokemon_name e file' :
  create_pokemon requests_get random (Some d) pokemon_name = (inl e, file') ->
  file' = Some d
  /\ ((requests.status_code (requests_get (Str.lower pokemon_name)) <> 200
       /\ e = HTTP 404 "Pokemon not found.")
      \/ (requests.status_code (requests_get (Str.lower pokemon_name)) = 200
          /\ requests.abilities (requests.json (requests_get (Str.lower pokemon_name)))
             <> []
          /\ trainers d = []
          /\ e = HTTP 500 "No trainers in the table")).
Proof.
  intro Hrun.
  destruct (Z.eq_dec (requests.status_code (requests_get (Str.lower pokemon_name))) 200)
    as [Hstatus|Hstatus].
  - destruct (declared_or_trainers
                (requests.abilities (requests.json (requests_get (Str.lower pokemon_name))))
                (trainers d)) as [[Hdeclared Hnone]|Hok].
    + rewrite (ingestion_no_trainers _ _ _ _ Hstatus Hdeclared Hnone) in Hrun.
      injection Hrun as <- <-. split; [reflexivity|]. right. auto.
    + destruct d as [P T A Tr L]. cbn [trainers] in Hok.
      destruct (ingestion_success requests_get random P T A Tr L pokemon_name Hstatus Hok)
        as (ids & added_types & pokemon_ & P' & added_abilities & news & Hsuccess & _).
      rewrite Hsuccess in Hrun. discriminate Hrun.
  - rewrite (ingestion_not_found _ _ _ _ Hstatus) in Hrun.
    injection Hrun as <- <-. split; [reflexivity|]. left. auto.
Qed.

(** X14. When the provider answers 200 and a trainer exists,
    [create_pokemon] succeeds and appends to the link table one row per
    declared ability, in order; the answer lists their ids; each new row
    holds the id of a trainer row, the id of a creature row of the
    requested name and the id of an ability row of the declared name
    (names compared case apart). *)
Theorem ingestion_links_every_ability d pokemon_name :
  requests.status_code (requests_get (Str.lower pokemon_name)) = 200 ->
  trainers d <> [] ->
  exists created d' news,
    create_pokemon requests_get random (Some d) pokemon_name = (inr created, Some d')
    /\ trainer_pokemon_abilities d' = (trainer_pokemon_abilities d ++ news)%list
    /\ created = map tpa_id news
    /\ Forall2 (fun entry l =>
                  In (trainer_id l) (map id (trainers d'))
                  /\ (exists p, In p (pokemon d') /\ id p = pokemon_id l
                                /\ Str.lower (name p) = Str.lower pokemon_name)
                  /\ (exists a, In a (abilities d') /\ id a = ability_id l
                                /\ Str.lower (name a) = Str.lower (Str.strip entry)))
               (requests.abilities (requests.json (requests_get (Str.lower pokemon_name))))
               news.
Proof.
  intros Hstatus Htrainers. destruct d as [P T A Tr L]. cbn [trainers] in Htrainers.
  destruct (ingestion_success requests_get random P T A Tr L pokemon_name Hstatus
              (or_intror Htrainers))
    as (ids & added_types & pokemon_ & P' & added_abilities & news & Hsuccess & _
        & (_ & _ & _ & p & Hp & Hpid & Hpname & _) & (_ & _ & _ & Hnews)).
  eexists. eexists. exists news. split; [exact Hsuccess|].
  cbn [trainer_pokemon_abilities trainers pokemon abilities].
  split; [reflexivity|]. split; [reflexivity|].
  eapply Forall2_impl; [|exact Hnews].
  intros entry l (Hl & Htr & Ha). cbn beta.
  split; [exact Htr|]. split; [|exact Ha].
  exists p. split; [exact Hp|]. split; [congruence | exact Hpname].
Qed.

(** X15. [create_pokemon] deletes and renames nothing: whatever its
    answer, the file afterwards holds the types and abilities tables with
    rows appended, the trainers table unchanged, the link table with rows
    appended, and a creature table whose rows keep their ids and names, with
    at most rows appended. *)
Theorem ingestion_only_adds d pokemon_name :
  exists d',
    snd (create_pokemon requests_get random (Some d) pokemon_name) = Some d'
    /\ (exists added, types d' = (types d ++ added)%list)
    /\ (exists added, abilities d' = (abilities d ++ added)%list)
    /\ trainers d' = trainers d
    /\ (exists news,
          trainer_pokemon_abilities d' = (trainer_pokemon_abilities d ++ news)%list)
    /\ (exists added : table type_slots,
          select_id_name (pokemon d')
          = (select_id_name (pokemon d) ++ select_id_name added)%list).
Proof.
  assert (Hsame : exists d',
            Some d = Some d'
            /\ (exists added, types d' = (types d ++ added)%list)
            /\ (exists added, abilities d' = (abilities d ++ added)%list)
            /\ trainers d' = trainers d
            /\ (exists news,
                  trainer_pokemon_abilities d' = (trainer_pokemon_abilities d ++ news)%list)
            /\ (exists added : table type_slots,
                  select_id_name (pokemon d')
                  = (select_id_name (pokemon d) ++ select_id_name added)%list)).
  { exists d. split; [reflexivity|].
    repeat split; try (exists []; cbn [select_id_name map]; rewrite app_nil_r; reflexivity). }
  destruct (Z.eq_dec (requests.status_code (requests_get (Str.lower pokemon_name))) 200)
    as [Hstatus|Hstatus].
  - destruct (declared_or_trainers
                (requests.abilities (requests.json (requests_get (Str.lower pokemon_name))))
                (trainers d)) as [[Hdeclared Hnone]|Hok].
    + rewrite (ingestion_no_trainers _ _ _ _ Hstatus Hdeclared Hnone). exact Hsame.
    + clear Hsame. destruct d as [P T A Tr L]. cbn [trainers] in Hok.
      destruct (ingestion_success requests_get random P T A Tr L pokemon_name Hstatus Hok)
        as (ids & added_types & pokemon_ & P' & added_abilities & news & Hsuccess & _
            & (Hadded & _) & _).
      rewrite Hsuccess. eexists. split; [reflexivity|].
      cbn [pokemon types abilities trainers trainer_pokemon_abilities].
      split; [exists added_types; reflexivity|].
      split; [exists added_abilities; reflexivity|].
      split; [reflexivity|]. split; [exists news; reflexivity | exact Hadded].
  - rewrite (ingestion_not_found _ _ _ _ Hstatus). exact Hsame.
Qed.


(** X17. [create_pokemon] keeps names unique: when no two rows of the
    creature table, of the types table and of the abilities table have
    names equal case apart, the same holds of the file after the call,
    whatever its answer. *)
Theorem ingestion_keeps_names_unique d pokemon_name :
  NoDup (map (fun r => Str.lower (name r)) (pokemon d)) ->
  NoDup (map (fun r => Str.lower (name r)) (types d)) ->
  NoDup (map (fun r => Str.lower (name r)) (abilities d)) ->
  exists d',
    snd (create_pokemon requests_get random (Some d) pokemon_name) = Some d'
    /\ NoDup (map (fun r => Str.lower (name r)) (pokemon d'))
    /\ NoDup (map (fun r => Str.lower (name r)) (types d'))
    /\ NoDup (map (fun r => Str.lower (name r)) (abilities d')).
Proof.
  intros Np Nt Na.
  destruct (Z.eq_dec (requests.status_code (requests_get (Str.lower pokemon_name))) 200)
    as [Hstatus|Hstatus].
  - destruct (declared_or_trainers
                (requests.abilities (requests.json (requests_get (Str.lower pokemon_name))))
                (trainers d)) as [[Hdeclared Hnone]|Hok].
    + rewrite (ingestion_no_trainers _ _ _ _ Hstatus Hdeclared Hnone). exists d. auto.
    + destruct d as [P T A Tr L].
      cbn [pokemon types abilities trainers trainer_pokemon_abilities] in *.
      destruct (ingestion_success requests_get random P T A Tr L pokemon_name Hstatus Hok)
        as (ids & added_types & pokemon_ & P' & added_abilities & news & Hsuccess
            & (_ & _ & Ht & _) & (_ & _ & Hp & _) & (_ & Ha & _)).
      rewrite Hsuccess. eexists. split; [reflexivity|].
      cbn [pokemon types abilities]. auto.
  - rewrite (ingestion_not_found _ _ _ _ Hstatus). exists d. auto.
Qed.

(** X18. A creature ingested with fewer than two declared types gets NULL
    in the slots that have no type: after a successful call a creature row
    of the requested name has type1_id NULL exactly when no type is
    declared, and type2_id NULL exactly when fewer than two are. *)
Theorem ingestion_missing_types_null d pokemon_name :
  requests.status_code (requests_get (Str.lower pokemon_name)) = 200 ->
  requests.abilities (requests.json (requests_get (Str.lower pokemon_name))) = []
  \/ trainers d <> [] ->
  exists created d' p,
    create_pokemon requests_get random (Some d) pokemon_name = (inr created, Some d')
    /\ In p (pokemon d')
    /\ Str.lower (name p) = Str.lower pokemon_name
    /\ (type1_id p = None
        <-> requests.types (requests.json (requests_get (Str.lower pokemon_name))) = [])
    /\ (type2_id p = None
        <-> (List.length
               (requests.types (requests.json (requests_get (Str.lower pokemon_name))))
             < 2)%nat).
Proof.
  intros Hstatus Hok. destruct d as [P T A Tr L]. cbn [trainers] in Hok.
  destruct (ingestion_success requests_get random P T A Tr L pokemon_name Hstatus Hok)
    as (ids & added_types & pokemon_ & P' & added_abilities & news & Hsuccess
        & (Hlen & _) & (_ & _ & _ & p & Hp & _ & Hpname & Hcols) & _).
  eexists. eexists. exists p. split; [exact Hsuccess|].
  cbn [pokemon]. split; [exact Hp|]. split; [exact Hpname|].
  unfold type1_id, type2_id. rewrite Hcols. cbn [fst snd].
  rewrite <- Hlen. split.
  - destruct ids as [|i ids]; cbn [nth_error List.length].
    + destruct (requests.types _); [tauto | discriminate Hlen].
    + destruct (requests.types _); [discriminate Hlen|]. split; discriminate.
  - rewrite nth_error_None. lia.
Qed.

End IngestionProperties.

(** ** The further properties at concrete inputs *)

Ltac distinct_by_computation :=
  cbn; repeat (constructor; [cbn; intuition discriminate|]); constructor.

Example sample_queries :
  get_pokemon_by_ability (Some sample_db) "STATIC" = inr ["Pikachu"]
  /\ get_pokemon_by_type (Some sample_db) "flying" = inr ["Charizard"]
  /\ get_trainers_by_pokemon (Some sample_db) "charizard" = inr ["Misty"]
  /\ get_abilities_by_pokemon (Some sample_db) "PIKACHU" = inr ["Static"].
Proof. repeat split. Qed.

Lemma link_queries_ignore_case_witness :
  Str.lower "static" = Str.lower "STATIC"
  /\ get_pokemon_by_ability (Some sample_db) "static"
     = get_pokemon_by_ability (Some sample_db) "STATIC"
  /\ get_trainers_by_pokemon (Some sample_db) "static"
     = get_trainers_by_pokemon (Some sample_db) "STATIC"
  /\ get_abilities_by_pokemon (Some sample_db) "static"
     = get_abilities_by_pokemon (Some sample_db) "STATIC".
Proof.
  split; [reflexivity|].
  exact (link_queries_ignore_case (Some sample_db) "static" "STATIC" eq_refl).
Defined.

Lemma unknown_name_empty_answer_witness :
  get_pokemon_by_ability (Some sample_db) "ghost" = inr []
  /\ get_pokemon_by_type (Some sample_db) "ghost" = inr []
  /\ get_trainers_by_pokemon (Some sample_db) "ghost" = inr []
  /\ get_abilities_by_pokemon (Some sample_db) "ghost" = inr [].
Proof.
  destruct (unknown_name_empty_answer sample_db "ghost") as (Hability & Htype & Hpokemon).
  split; [apply Hability; intros a [<-|[<-|[]]]; discriminate|].
  split; [apply Htype; intros t [<-|[<-|[<-|[]]]]; discriminate|].
  apply Hpokemon. intros p [<-|[<-|[]]]; discriminate.
Defined.

Lemma pass_deduplicates_trimmed_witness :
  exists d',
    reconcile difflib.get_close_matches (Some ["pikachu"; "charizard"]) (Some sample_db)
    = Some d'
    /\ (forall r1 r2, In r1 (pokemon d') -> In r2 (pokemon d') ->
                      Str.lower (name r1) = Str.lower (name r2) -> r1 = r2)
    /\ (forall r1 r2, In r1 (types d') -> In r2 (types d') ->
                      Str.lower (name r1) = Str.lower (name r2) -> r1 = r2)
    /\ (forall r1 r2, In r1 (abilities d') -> In r2 (abilities d') ->
                      Str.lower (name r1) = Str.lower (name r2) -> r1 = r2)
    /\ (forall r1 r2, In r1 (trainers d') -> In r2 (trainers d') ->
                      Str.lower (name r1) = Str.lower (name r2) -> r1 = r2).
Proof.
  apply (pass_deduplicates_trimmed difflib.get_close_matches ["pikachu"; "charizard"]
           sample_db).
  - distinct_by_computation.
  - distinct_by_computation.
  - distinct_by_computation.
  - distinct_by_computation.
  - vm_compute. intros r [<-|[<-|[]]]; reflexivity.
  - intros r [<-|[<-|[<-|[]]]]; reflexivity.
  - intros r [<-|[<-|[]]]; reflexivity.
  - intros r [<-|[<-|[]]]; reflexivity.
Defined.

Lemma pass_keeps_every_name_witness :
  exists d',
    reconcile difflib.get_close_matches (Some ["pikachu"])
      (Some (Db [] [Row 3 "fire" tt; Row 1 "FIRE" tt; Row 2 "???" tt] [] [] []))
    = Some d'
    /\ exists r', In r' (types d') /\ name r' = "Fire" /\ id r' <= 3.
Proof.
  destruct (pass_keeps_every_name difflib.get_close_matches ["pikachu"]
              (Db [] [Row 3 "fire" tt; Row 1 "FIRE" tt; Row 2 "???" tt] [] [] []))
    as (d' & Hrun & _ & Htypes & _).
  - distinct_by_computation.
  - distinct_by_computation.
  - distinct_by_computation.
  - distinct_by_computation.
  - exists d'. split; [exact Hrun|].
    apply (Htypes (Row 3 "fire" tt)); [left; reflexivity|].
    cbn. intuition discriminate.
Defined.

Lemma official_names_not_corrected_witness :
  correct_names difflib.get_close_matches ["pikachu"; "charizard"]
    [pk 1 " PIKACHU"; pk 2 "Charizard "]
  = [pk 1 " PIKACHU"; pk 2 "Charizard "].
Proof.
  apply official_names_not_corrected.
  intros r [<-|[<-|[]]]; cbn; auto.
Defined.

Lemma ingestion_error_leaves_file_witness :
  create_pokemon (provider_of 404 [] []) (fun k => k) (Some sample_db) "missingno"
  = (inl (HTTP 404 "Pokemon not found."), Some sample_db)
  /\ Some sample_db = Some sample_db
  /\ ((requests.status_code (provider_of 404 [] [] (Str.lower "missingno")) <> 200
       /\ HTTP 404 "Pokemon not found." = HTTP 404 "Pokemon not found.")
      \/ (requests.status_code (provider_of 404 [] [] (Str.lower "missingno")) = 200
          /\ requests.abilities (requests.json (provider_of 404 [] [] (Str.lower "missingno")))
             <> []
          /\ trainers sample_db = []
          /\ HTTP 404 "Pokemon not found." = HTTP 500 "No trainers in the table")).
Proof.
  assert (Hrun : create_pokemon (provider_of 404 [] []) (fun k => k) (Some sample_db)
                   "missingno"
                 = (inl (HTTP 404 "Pokemon not found."), Some sample_db))
    by reflexivity.
  split; [exact Hrun|].
  exact (ingestion_error_leaves_file (provider_of 404 [] []) (fun k => k)
           sample_db "missingno" _ _ Hrun).
Defined.

Lemma ingestion_links_every_ability_witness :
  exists created d' news,
    create_pokemon (provider_of 200 ["fire"] ["blaze"; "solar-power"]) (fun k => k)
      (Some sample_db) "charmander" = (inr created, Some d')
    /\ trainer_pokemon_abilities d' = (trainer_pokemon_abilities sample_db ++ news)%list
    /\ created = map tpa_id news
    /\ Forall2 (fun entry l =>
                  In (trainer_id l) (map id (trainers d'))
                  /\ (exists p, In p (pokemon d') /\ id p = pokemon_id l
                                /\ Str.lower (name p) = Str.lower "charmander")
                  /\ (exists a, In a (abilities d') /\ id a = ability_id l
                                /\ Str.lower (name a) = Str.lower (Str.strip entry)))
               ["blaze"; "solar-power"] news.
Proof.
  apply (ingestion_links_every_ability
           (provider_of 200 ["fire"] ["blaze"; "solar-power"]) (fun k => k)
           sample_db "charmander"); [reflexivity | discriminate].
Defined.


Lemma ingestion_keeps_names_unique_witness :
  exists d',
    snd (create_pokemon (provider_of 200 ["fire"; "ghost"] ["blaze"; "solar-power"])
           (fun k => k) (Some sample_db) "charmander") = Some d'
    /\ NoDup (map (fun r => Str.lower (name r)) (pokemon d'))
    /\ NoDup (map (fun r => Str.lower (name r)) (types d'))
    /\ NoDup (map (fun r => Str.lower (name r)) (abilities d')).
Proof.
  apply ingestion_keeps_names_unique; distinct_by_computation.
Defined.

Lemma ingestion_missing_types_null_witness :
  exists created d' p,
    create_pokemon (provider_of 200 ["fire"] []) (fun k => k) (Some sample_db) "charizard"
    = (inr created, Some d')
    /\ In p (pokemon d')
    /\ Str.lower (name p) = Str.lower "charizard"
    /\ (type1_id p = None <-> ["fire"] = [])
    /\ (type2_id p = None <-> (List.length ["fire"] < 2)%nat).
Proof.
  apply (ingestion_missing_types_null (provider_of 200 ["fire"] []) (fun k => k)
           sample_db "charizard"); [reflexivity | left; reflexivity].
Defined.

Example reingestion_resets_slots :
  create_pokemon (provider_of 200 ["fire"] []) (fun k => k) (Some sample_db) "charizard"
  = (inr [],
     Some (Db [Row 1 "Pikachu" (Some 1, None); Row 2 "Charizard" (Some 2, None)]
              (types sample_db) (abilities sample_db) (trainers sample_db)
              (trainer_pokemon_abilities sample_db))).
Proof. reflexivity. Qed.

(** ** Fixed points of the pass *)

Lemma filter_keeps_all {X : Type} (keep : X -> bool) (l : list X) :
  (forall x, In x l -> keep x = true) -> filter keep l = l.
Proof.
  induction l as [|x l IH]; intro Hall; [reflexivity|]. cbn [filter].
  rewrite (Hall x (or_introl eq_refl)). f_equal. apply IH.
  intros y Hy. apply Hall. right. exact Hy.
Qed.

Lemma normalised_trimmed s : Str.title (Str.strip s) = s -> Str.strip s = s.
Proof.
  intro H. rewrite <- H at 1.
  rewrite NormalFacts.strip_title, NormalFacts.strip_idem. exact H.
Qed.

(** Deduplication, casing and purge leave a reconciled table as it is. *)
Lemma cleaned_fixed {C : Type} (t : table C) :
  reconciled t -> delete_sentinels (standardise (delete_duplicates t)) = t.
Proof.
  intros (Hnd & Hnames & Hunique).
  assert (Hdedup : delete_duplicates t = t).
  { apply filter_keeps_all. intros r Hin.
    assert (Hkept : In r (delete_duplicates t)).
    { apply smallest_kept; [exact Hin|]. intros r' Hin' Hname.
      rewrite (Hunique r' r Hin' Hin Hname). lia. }
    unfold delete_duplicates in Hkept. apply filter_In in Hkept. tauto. }
  rewrite Hdedup, (standardise_rowwise t Hnd).
  assert (Hcase : map (fun r => Row (id r) (Str.title (Str.strip (name r))) (cols r)) t = t).
  { rewrite <- (map_id t) at 2. apply map_ext_in. intros r Hin.
    rewrite (proj1 (Hnames r Hin)). destruct r; reflexivity. }
  rewrite Hcase. apply filter_keeps_all. intros r Hin.
  destruct (Str.contains sentinels (name r)) eqn:Hs; [|reflexivity].
  apply StrFacts.contains_In in Hs. exfalso. exact (proj2 (Hnames r Hin) Hs).
Qed.

Lemma cleaned_ids {C : Type} (t : table C) :
  NoDup (map id t) ->
  NoDup (map id (delete_sentinels (standardise (delete_duplicates t)))).
Proof.
  intro Hnd. apply NoDup_ids_filter.
  assert (Hnd2 : NoDup (map id (delete_duplicates t))) by (apply NoDup_ids_filter; exact Hnd).
  rewrite (standardise_rowwise _ Hnd2), map_map. exact Hnd2.
Qed.

(** Two rounds of deduplication, casing and purge reconcile a table of
    unique ids. *)
Lemma cleaned_twice_reconciled {C : Type} (t : table C) :
  NoDup (map id t) ->
  reconciled (delete_sentinels (standardise (delete_duplicates
               (delete_sentinels (standardise (delete_duplicates t)))))).
Proof.
  intro Hnd.
  set (t1 := delete_sentinels (standardise (delete_duplicates t))).
  assert (Hnd1 : NoDup (map id t1)) by (apply cleaned_ids; exact Hnd).
  assert (Htrim1 : forall r, In r t1 -> Str.strip (name r) = name r).
  { intros r Hin. apply normalised_trimmed. exact (proj2 (cleaned_row t r Hin)). }
  split; [apply cleaned_ids; exact Hnd1|]. split.
  - intros r Hin. split.
    + exact (proj2 (cleaned_row t1 r Hin)).
    + exact (delete_sentinels_names _ r Hin).
  - intros r1 r2. apply cleaned_unique; assumption.
Qed.

Section FixedPoints.
Variable get_close_matches : string -> list string -> nat -> Q -> list string.

(** X19. A reconciled store is a fixed point of the pass: when the four
    entity tables have unique ids, trimmed and title-cased names, no
    sentinel and no two names equal case apart, and every creature name,
    lower-cased, is in the official list, the pass leaves the store exactly
    as it is. *)
Theorem reconciled_store_unchanged official d :
  reconciled (pokemon d) -> reconciled (types d) ->
  reconciled (abilities d) -> reconciled (trainers d) ->
  (forall r, In r (pokemon d) -> In (Str.lower (Str.strip (name r))) official) ->
  reconcile get_close_matches (Some official) (Some d) = Some d.
Proof.
  intros Hp Ht Ha Htr Hofficial. rewrite reconcile_tables.
  assert (Hcorrect : correct_names get_close_matches official (pokemon d) = pokemon d).
  { unfold correct_names. apply correct_names_all_official.
    intros p Hin. unfold select_id_name in Hin. apply in_map_iff in Hin.
    destruct Hin as (r & <- & Hr). cbn [snd]. exact (Hofficial r Hr). }
  rewrite Hcorrect, !cleaned_fixed by assumption.
  destruct d; reflexivity.
Qed.

(** X20. Two passes settle the types, abilities and trainers tables: when
    their ids are unique, these tables are reconciled after the second
    pass, and a third pass leaves them as the second did (whatever the
    official lists fetched by the three passes). *)
Theorem two_passes_settle first second third d :
  NoDup (map id (types d)) -> NoDup (map id (abilities d)) ->
  NoDup (map id (trainers d)) ->
  exists d1 d2 d3,
    reconcile get_close_matches first (Some d) = Some d1
    /\ reconcile get_close_matches second (Some d1) = Some d2
    /\ reconcile get_close_matches third (Some d2) = Some d3
    /\ reconciled (types d2) /\ reconciled (abilities d2) /\ reconciled (trainers d2)
    /\ types d3 = types d2 /\ abilities d3 = abilities d2 /\ trainers d3 = trainers d2.
Proof.
  intros Nt Na Ntr.
  eexists. eexists. eexists.
  split; [apply reconcile_tables|]. split; [apply reconcile_tables|].
  split; [apply reconcile_tables|].
  cbn [pokemon types abilities trainers].
  pose proof (cleaned_twice_reconciled (types d) Nt) as Rt.
  pose proof (cleaned_twice_reconciled (abilities d) Na) as Ra.
  pose proof (cleaned_twice_reconciled (trainers d) Ntr) as Rtr.
  split; [exact Rt|]. split; [exact Ra|]. split; [exact Rtr|].
  rewrite (cleaned_fixed _ Rt), (cleaned_fixed _ Ra), (cleaned_fixed _ Rtr).
  repeat split.
Qed.

End FixedPoints.

(** ** Ingestion followed by a query *)

Lemma Forall2_In_left {X Y : Type} (R : X -> Y -> Prop) l l' x :
  Forall2 R l l' -> In x l -> exists y, In y l' /\ R x y.
Proof.
  induction 1 as [|a b l l' Hab _ IH]; intro Hin; [contradiction|].
  destruct Hin as [<-|Hin].
  - exists b. split; [left; reflexivity | exact Hab].
  - destruct (IH Hin) as (y & Hy & Hxy). exists y. split; [right; exact Hy | exact Hxy].
Qed.

Lemma Forall2_nth_error {X Y : Type} (R : X -> Y -> Prop) l l' :
  Forall2 R l l' ->
  forall k x, nth_error l k = Some x -> exists y, nth_error l' k = Some y /\ R x y.
Proof.
  induction 1 as [|a b l l' Hab _ IH]; intros k x Hk.
  - destruct k; discriminate Hk.
  - destruct k as [|k]; cbn [nth_error] in *.
    + injection Hk as <-. exists b. auto.
    + exact (IH k x Hk).
Qed.

Section IngestThenQuery.
Variable requests_get : string -> requests.Response.
Variable random : nat -> nat.

(** X21. What a successful ingestion links can be read back: when the
    provider answers 200 and a trainer exists, then on the file after
    [create_pokemon] the abilities query for the requested creature lists,
    for every declared ability, a name equal to it case apart, and the
    trainers query for that creature lists at least one trainer as soon as
    an ability is declared. *)
Theorem ingested_links_are_listed d pokemon_name :
  requests.status_code (requests_get (Str.lower pokemon_name)) = 200 ->
  trainers d <> [] ->
  exists created d' ability_names trainer_names,
    create_pokemon requests_get random (Some d) pokemon_name = (inr created, Some d')
    /\ get_abilities_by_pokemon (Some d') pokemon_name = inr ability_names
    /\ get_trainers_by_pokemon (Some d') pokemon_name = inr trainer_names
    /\ (forall entry,
          In entry (requests.abilities
                      (requests.json (requests_get (Str.lower pokemon_name)))) ->
          exists n, In n ability_names /\ Str.lower n = Str.lower (Str.strip entry))
    /\ (requests.abilities (requests.json (requests_get (Str.lower pokemon_name))) <> [] ->
        trainer_names <> []).
Proof.
  intros Hstatus Htrainers. destruct d as [P T A Tr L]. cbn [trainers] in Htrainers.
  destruct (ingestion_success requests_get random P T A Tr L pokemon_name Hstatus
              (or_intror Htrainers))
    as (ids & added_types & pokemon_ & P' & added_abilities & news & Hsuccess & _
        & (_ & _ & _ & p & Hp & Hpid & Hpname & _) & (_ & _ & _ & Hnews)).
  set (d' := Db P' (T ++ added_types)%list (A ++ added_abilities)%list Tr (L ++ news)%list)
    in *.
  exists (map tpa_id news), d',
    (select_abilities_by_pokemon pokemon_name d'),
    (select_trainers_by_pokemon pokemon_name d').
  split; [exact Hsuccess|].
  split; [unfold get_abilities_by_pokemon; cbn [connect_db pending];
          rewrite rows_or_empty; reflexivity|].
  split; [unfold get_trainers_by_pokemon; cbn [connect_db pending];
          rewrite rows_or_empty; reflexivity|].
  split.
  - intros entry Hentry.
    destruct (Forall2_In_left _ _ _ _ Hnews Hentry)
      as (l & Hl & Hlp & _ & a & Ha & Haid & Halow).
    exists (name a). split; [|exact Halow].
    unfold select_abilities_by_pokemon. apply distinct_In. split; [|intros []].
    apply join_on_links_In. exists a, l, p.
    unfold d'. cbn [abilities trainer_pokemon_abilities pokemon].
    split; [exact Ha|]. split; [apply in_or_app; right; exact Hl|].
    split; [exact Hp|]. split; [exact Haid|]. split; [congruence|]. auto.
  - intros Hdeclared Hempty.
    destruct (requests.abilities (requests.json (requests_get (Str.lower pokemon_name))))
      as [|entry rest]; [contradiction|].
    destruct (Forall2_In_left _ _ _ entry Hnews (or_introl eq_refl))
      as (l & Hl & Hlp & Htr & _).
    apply in_map_iff in Htr. destruct Htr as (tr & Htrid & Htrin).
    assert (Hin : In (name tr) (select_trainers_by_pokemon pokemon_name d')).
    { unfold select_trainers_by_pokemon. apply distinct_In. split; [|intros []].
      apply join_on_links_In. exists tr, l, p.
      unfold d'. cbn [trainers trainer_pokemon_abilities pokemon].
      split; [exact Htrin|].
      split; [apply in_or_app; right; exact Hl|].
      split; [exact Hp|]. split; [exact Htrid|]. split; [congruence|]. auto. }
    rewrite Hempty in Hin. exact Hin.
Qed.

(** X22. A creature ingested successfully is found under its first two
    declared types: on the file after [create_pokemon], the type query for
    the first or the second declared type (trimmed) lists a name equal to
    the requested creature name, case apart. *)
Theorem ingested_creature_listed_by_type d pokemon_name :
  requests.status_code (requests_get (Str.lower pokemon_name)) = 200 ->
  requests.abilities (requests.json (requests_get (Str.lower pokemon_name))) = []
  \/ trainers d <> [] ->
  exists created d',
    create_pokemon requests_get random (Some d) pokemon_name = (inr created, Some d')
    /\ forall k ty,
         (k < 2)%nat ->
         nth_error (requests.types (requests.json (requests_get (Str.lower pokemon_name))))
                   k = Some ty ->
         exists names n,
           get_pokemon_by_type (Some d') (Str.strip ty) = inr names
           /\ In n names /\ Str.lower n = Str.lower pokemon_name.
Proof.
  intros Hstatus Hok. destruct d as [P T A Tr L]. cbn [trainers] in Hok.
  destruct (ingestion_success requests_get random P T A Tr L pokemon_name Hstatus Hok)
    as (ids & added_types & pokemon_ & P' & added_abilities & news & Hsuccess
        & (_ & _ & _ & Hids) & (_ & _ & _ & p & Hp & _ & Hpname & Hcols) & _).
  set (d' := Db P' (T ++ added_types)%list (A ++ added_abilities)%list Tr (L ++ news)%list)
    in *.
  exists (map tpa_id news), d'. split; [exact Hsuccess|].
  intros k ty Hk Hty.
  destruct (Forall2_nth_error _ _ _ Hids k ty Hty) as (i & Hi & r & Hr & Hrid & Hrlow).
  exists (select_pokemon_by_type (Str.strip ty) d'), (name p).
  split; [unfold get_pokemon_by_type; cbn [connect_db pending];
          rewrite rows_or_empty; reflexivity|].
  split; [|exact Hpname].
  apply select_pokemon_by_type_In. exists p, r.
  unfold d'. cbn [pokemon types].
  split; [exact Hp|]. split; [exact Hr|]. split; [|auto].
  unfold type1_id, type2_id. rewrite Hcols, Hrid. cbn [fst snd].
  destruct k as [|[|k]]; [left; exact Hi | right; exact Hi | lia].
Qed.

End IngestThenQuery.

Lemma reconciled_store_unchanged_witness :
  reconcile difflib.get_close_matches (Some ["pikachu"; "charizard"]) (Some sample_db)
  = Some sample_db.
Proof.
  assert (Hreconciled : forall (C : Type) (t : table C),
            NoDup (map id t) ->
            Forall (fun r => Str.title (Str.strip (name r)) = name r
                             /\ ~ In (name r) sentinels) t ->
            NoDup (map (fun r => Str.lower (name r)) t) ->
            reconciled t).
  { intros C t Hid Hnames Hlow. split; [exact Hid|]. split.
    - intros r Hin. exact (proj1 (Forall_forall _ _) Hnames r Hin).
    - clear Hid Hnames. induction t as [|r t IH]; intros r1 r2 H1 H2 Hname; [contradiction|].
      inversion Hlow as [|? ? Hfresh Hlow']; subst.
      destruct H1 as [<-|H1], H2 as [<-|H2].
      + reflexivity.
      + exfalso. apply Hfresh. rewrite Hname.
        apply (in_map (fun r => Str.lower (name r))). exact H2.
      + exfalso. apply Hfresh. rewrite <- Hname.
        apply (in_map (fun r => Str.lower (name r))). exact H1.
      + exact (IH Hlow' r1 r2 H1 H2 Hname). }
  apply reconciled_store_unchanged.
  - apply Hreconciled; [distinct_by_computation | | distinct_by_computation].
    repeat constructor; cbn; intuition discriminate.
  - apply Hreconciled; [distinct_by_computation | | distinct_by_computation].
    repeat constructor; cbn; intuition discriminate.
  - apply Hreconciled; [distinct_by_computation | | distinct_by_computation].
    repeat constructor; cbn; intuition discriminate.
  - apply Hreconciled; [distinct_by_computation | | distinct_by_computation].
    repeat constructor; cbn; intuition discriminate.
  - intros r [<-|[<-|[]]]; cbn; auto.
Defined.

Lemma two_passes_settle_witness :
  exists d1 d2 d3,
    reconcile difflib.get_close_matches None
      (Some (Db [] [Row 1 "fire" tt; Row 2 " Fire" tt] [] [Row 1 "Ash" tt; Row 2 "ash " tt] []))
    = Some d1
    /\ reconcile difflib.get_close_matches None (Some d1) = Some d2
    /\ reconcile difflib.get_close_matches None (Some d2) = Some d3
    /\ reconciled (types d2) /\ reconciled (abilities d2) /\ reconciled (trainers d2)
    /\ types d3 = types d2 /\ abilities d3 = abilities d2 /\ trainers d3 = trainers d2.
Proof.
  apply two_passes_settle; distinct_by_computation.
Defined.

Lemma ingested_links_are_listed_witness :
  exists created d' ability_names trainer_names,
    create_pokemon (provider_of 200 ["fire"] ["blaze"; "solar-power"]) (fun k => k)
      (Some sample_db) "charmander" = (inr created, Some d')
    /\ get_abilities_by_pokemon (Some d') "charmander" = inr ability_names
    /\ get_trainers_by_pokemon (Some d') "charmander" = inr trainer_names
    /\ (forall entry,
          In entry ["blaze"; "solar-power"] ->
          exists n, In n ability_names /\ Str.lower n = Str.lower (Str.strip entry))
    /\ (["blaze"; "solar-power"] <> [] -> trainer_names <> []).
Proof.
  apply (ingested_links_are_listed (provider_of 200 ["fire"] ["blaze"; "solar-power"])
           (fun k => k) sample_db "charmander"); [reflexivity | discriminate].
Defined.

Lemma ingested_creature_listed_by_type_witness :
  exists created d',
    create_pokemon (provider_of 200 ["fire"; "flying"; "dragon"] []) (fun k => k)
      (Some sample_db) "charizard" = (inr created, Some d')
    /\ forall k ty,
         (k < 2)%nat ->
         nth_error ["fire"; "flying"; "dragon"] k = Some ty ->
         exists names n,
           get_pokemon_by_type (Some d') (Str.strip ty) = inr names
           /\ In n names /\ Str.lower n = Str.lower "charizard".
Proof.
  apply (ingested_creature_listed_by_type
           (provider_of 200 ["fire"; "flying"; "dragon"] []) (fun k => k)
           sample_db "charizard"); [reflexivity | left; reflexivity].
Defined.

Example ingest_then_query_sample :
  let d' := snd (create_pokemon (provider_of 200 ["fire"] ["blaze"; "solar-power"])
                   (fun k => k) (Some sample_db) "charmander") in
  get_abilities_by_pokemon d' "CHARMANDER" = inr ["Blaze"; "Solar-Power"]
  /\ get_trainers_by_pokemon d' "charmander" = inr ["Ash"; "Misty"]
  /\ get_pokemon_by_type d' "fire" = inr ["Charizard"; "Charmander"].
Proof. repeat split. Qed.
